(** * mjs_bootstrap: the board programmer ([programmer.py])

    A shallow embedding of the provisioning script and the properties of
    its binary encoders, of its alignment rule, of its handling of the
    dfu-util exit status and of its top-level run.

    Python integers are unbounded, so they are [Z]; [bytes] values are
    [list byte]; text ([str], and the output of child processes) is
    [string].  Code that can raise returns [option] (pure encoders, the
    only exception being [struct.error]) or runs in the small exception
    and state monad [M] defined below. *)

From Stdlib Require Import ZArith List String Ascii Lia Bool.
From Stdlib Require DecimalString HexadecimalString DecimalZ DecimalPos.
From coqutil Require Import Byte Word.LittleEndianList.
Import ListNotations.
Local Open Scope Z_scope.

Definition bytes : Type := list byte.

(** ** The part of the [struct] module the script uses *)

Module Struct.

Inductive byte_order := LittleEndian | BigEndian.

(** Format characters [B], [H], [I], [Q] (unsigned integers of 1, 2, 4
    and 8 bytes) and [<n>s] (a byte string of [n] bytes). *)
Inductive code :=
| cB | cH | cI | cQ
| cs (n : nat).

Inductive value :=
| VInt (z : Z)
| VBytes (b : bytes).

Definition digit_of (c : ascii) : option nat :=
  let n := nat_of_ascii c in
  if ((48 <=? n) && (n <=? 57))%nat then Some (n - 48)%nat else None.

(** A repeat count in front of [s] is the length of the string; in
    front of any other character it repeats the field. *)
Definition item (count : option nat) (c : ascii) : option (list code) :=
  let times := match count with Some k => k | None => 1%nat end in
  match c with
  | "B"%char => Some (repeat cB times)
  | "H"%char => Some (repeat cH times)
  | "I"%char => Some (repeat cI times)
  | "Q"%char => Some (repeat cQ times)
  | "s"%char => Some [cs times]
  | _ => None
  end.

Fixpoint parse_items (count : option nat) (s : string) : option (list code) :=
  match s with
  | EmptyString => match count with None => Some [] | Some _ => None end
  | String c rest =>
      match digit_of c with
      | Some d =>
          let k := match count with Some k => k | None => 0%nat end in
          parse_items (Some (10 * k + d)%nat) rest
      | None =>
          match item count c, parse_items None rest with
          | Some here, Some more => Some (here ++ more)
          | _, _ => None
          end
      end
  end.

(** Only the two byte orders the script writes are recognised. *)
Definition parse (fmt : string) : option (byte_order * list code) :=
  match fmt with
  | String "<"%char rest => option_map (pair LittleEndian) (parse_items None rest)
  | String ">"%char rest => option_map (pair BigEndian) (parse_items None rest)
  | _ => None
  end.

Definition width (c : code) : nat :=
  match c with
  | cB => 1 | cH => 2 | cI => 4 | cQ => 8
  | cs n => n
  end.

Definition calcsize (fmt : string) : option Z :=
  match parse fmt with
  | Some (_, codes) => Some (Z.of_nat (list_sum (map width codes)))
  | None => None
  end.

(** An integer of [n] bytes in the given byte order. *)
Definition int_to_bytes (o : byte_order) (n : nat) (z : Z) : bytes :=
  match o with
  | LittleEndian => le_split n z
  | BigEndian => rev (le_split n z)
  end.

(** [struct.error] is [None]: an integer field refuses a value outside
    [0 .. 256^n - 1] and a value that is not an integer; an [s] field
    refuses a value that is not a byte string, and fits a byte string
    of another length by truncating it or by padding it with null
    bytes. *)
Definition pack_field (o : byte_order) (c : code) (v : value) : option bytes :=
  match c, v with
  | cs n, VBytes b => Some (firstn n b ++ repeat Byte.x00 (n - List.length b))
  | cs _, VInt _ => None
  | _, VInt z =>
      if (0 <=? z) && (z <? 2 ^ (8 * Z.of_nat (width c)))
      then Some (int_to_bytes o (width c) z)
      else None
  | _, VBytes _ => None
  end.

Fixpoint pack_fields (o : byte_order) (codes : list code) (vs : list value)
  : option bytes :=
  match codes, vs with
  | [], [] => Some []
  | c :: codes', v :: vs' =>
      match pack_field o c v, pack_fields o codes' vs' with
      | Some here, Some more => Some (here ++ more)
      | _, _ => None
      end
  | _, _ => None
  end.

Definition pack (fmt : string) (vs : list value) : option bytes :=
  match parse fmt with
  | Some (o, codes) => pack_fields o codes vs
  | None => None
  end.

End Struct.

Import Struct.

(** ** The [crc32c] package

    The package is a dependency of the script, not part of it.  It is
    embedded as the bitwise, reflected CRC-32C (Castagnoli polynomial
    [0x1EDC6F41], reflected [0x82F63B78], initial value and final
    exclusive-or [0xFFFFFFFF]). *)

Module Crc32c.

Definition POLY : Z := 0x82F63B78.

Fixpoint shift_bits (n : nat) (c : Z) : Z :=
  match n with
  | O => c
  | S n' =>
      shift_bits n'
        (if Z.testbit c 0 then Z.lxor (Z.shiftr c 1) POLY else Z.shiftr c 1)
  end.

Definition update (c : Z) (b : byte) : Z :=
  shift_bits 8 (Z.lxor c (byte.unsigned b)).

Definition crc32c (data : bytes) : Z :=
  Z.lxor (fold_left update data 0xFFFFFFFF) 0xFFFFFFFF.

End Crc32c.

(** ** Conversions of values to text *)

(** [str(n)] of an integer. *)
Definition str_int (n : Z) : string :=
  DecimalString.NilZero.string_of_int (Z.to_int n).

(** [hex(n)] of an integer: ['0x1ff80000'], ['-0x1a']. *)
Definition hex (n : Z) : string :=
  ((if (n <? 0)%Z then "-0x" else "0x") ++
   HexadecimalString.NilZero.string_of_uint (N.to_hex_uint (Z.abs_N n)))%string.

Definition hex_digit (n : Z) : string :=
  HexadecimalString.NilZero.string_of_uint (N.to_hex_uint (Z.to_N n)).

(** [b.hex()] of a byte string: two digits a byte. *)
Definition bytes_hex (b : bytes) : string :=
  String.concat EmptyString
    (map (fun x => (hex_digit (byte.unsigned x / 16)%Z ++
                    hex_digit (byte.unsigned x mod 16)%Z)%string) b).

(** ** FLASH content generation *)

Definition CRC_SIZE : nat := 4.
Definition KEY_SIZE : Z := 16.

(** [">BBQQ{}sHH".format(KEY_SIZE)] *)
Definition SEGMENT_FORMAT : string :=
  (">BBQQ" ++ str_int KEY_SIZE ++ "sHH")%string.

(** [s[1:]] *)
Definition drop_first (s : string) : string :=
  match s with
  | EmptyString => EmptyString
  | String _ rest => rest
  end.

(** [">I{}HI".format(SEGMENT_FORMAT[1:])] *)
Definition BLOCK_FORMAT : string :=
  (">I" ++ drop_first SEGMENT_FORMAT ++ "HI")%string.

(** The value of a module-level constant whose expression does not raise. *)
Definition constant (o : option Z) : Z :=
  match o with Some z => z | None => 0 end.

Record EepromContents := {
  crc : Z;
  board_id : Z;
  board_version : Z;
  app_eui : Z;
  dev_eui : Z;
  app_key : bytes;
  segment_size : Z;
  segment_type : Z;
  total_size : Z;
  magic : Z
}.

(** The constructor call of the named tuple, with the defaults of its
    last four fields. *)
Definition mkEepromContents (crc board_id board_version app_eui dev_eui : Z)
    (app_key : bytes) : EepromContents :=
  {| crc := crc;
     board_id := board_id;
     board_version := board_version;
     app_eui := app_eui;
     dev_eui := dev_eui;
     app_key := app_key;
     segment_size := constant (calcsize SEGMENT_FORMAT);
     segment_type := 0x0201;
     total_size := constant (calcsize BLOCK_FORMAT);
     magic := 0xB6E03B02 |}.

(** [flash._replace(crc=...)] *)
Definition replace_crc (e : EepromContents) (c : Z) : EepromContents :=
  {| crc := c;
     board_id := board_id e;
     board_version := board_version e;
     app_eui := app_eui e;
     dev_eui := dev_eui e;
     app_key := app_key e;
     segment_size := segment_size e;
     segment_type := segment_type e;
     total_size := total_size e;
     magic := magic e |}.

(** [*flash]: the fields of the tuple, in the order of their declaration. *)
Definition fields (e : EepromContents) : list value :=
  [VInt (crc e); VInt (board_id e); VInt (board_version e);
   VInt (app_eui e); VInt (dev_eui e); VBytes (app_key e);
   VInt (segment_size e); VInt (segment_type e); VInt (total_size e);
   VInt (magic e)].

Definition generate_flash (app_eui dev_eui : Z) (app_key : bytes)
    (board_id board_version : Z) : option bytes :=
  let flash_before_crc :=
    mkEepromContents 0 board_id board_version app_eui dev_eui app_key in
  match pack BLOCK_FORMAT (fields flash_before_crc) with
  | None => None
  | Some binary_before_crc =>
      let flash :=
        replace_crc flash_before_crc
          (Crc32c.crc32c (skipn CRC_SIZE binary_before_crc)) in
      pack BLOCK_FORMAT (fields flash)
  end.

(** ** Option bytes *)

(** A [for] loop over a sequence whose body updates one variable and can
    raise. *)
Fixpoint for_each {A S : Type} (xs : list A) (body : S -> A -> option S)
    (s : S) : option S :=
  match xs with
  | [] => Some s
  | x :: rest =>
      match body s x with
      | Some s' => for_each rest body s'
      | None => None
      end
  end.

Definition encode_option_bytes (words : list Z) : option bytes :=
  for_each words
    (fun res word =>
       for_each [Z.land word 0xffff; Z.shiftr word 16]
         (fun res hw =>
            match pack "<HH" [VInt hw; VInt (Z.lxor hw 0xffff)] with
            | Some p => Some (res ++ p)
            | None => None
            end)
         res)
    [].

Definition FLASH_SIZE : Z := 192 * 1024.
Definition FLASH_START_ADDRESS : Z := 0x08000000.
Definition FLASH_ALIGN : Z := 128.
Definition FLASH_PROTECT_SECTOR_SIZE : Z := 4096.
Definition OPTION_START_ADDRESS : Z := 0x1FF80000.

(** [int(flash_size / sector_size) - 1]: the quotient is a float that
    [int] truncates; for the sizes in use it is the exact quotient. *)
Definition last_sector (flash_size sector_size : Z) : Z :=
  Z.quot flash_size sector_size - 1.

Definition PROTECTED_SECTOR : Z := last_sector FLASH_SIZE FLASH_PROTECT_SECTOR_SIZE.

Definition OPTION_BYTES_DEFAULT : list Z := [0x807000AA; 0x00000000; 0x0000].

Definition OPTION_BYTES_UNPROTECTED : list Z :=
  [Z.lor (nth 0 OPTION_BYTES_DEFAULT 0) 0x60000;
   nth 1 OPTION_BYTES_DEFAULT 0;
   nth 2 OPTION_BYTES_DEFAULT 0].

(** The expression of [OPTION_BYTES_PROTECTED], for any index of the
    protected sector. *)
Definition option_bytes_protected (sector : Z) : list Z :=
  [nth 0 OPTION_BYTES_UNPROTECTED 0;
   Z.lor (nth 1 OPTION_BYTES_UNPROTECTED 0)
     (if sector <=? 31 then Z.shiftl 1 sector else 0);
   Z.lor (nth 2 OPTION_BYTES_UNPROTECTED 0)
     (if sector >=? 32 then Z.shiftl 1 (sector - 32) else 0)].

Definition OPTION_BYTES_PROTECTED : list Z :=
  option_bytes_protected PROTECTED_SECTOR.

(** ** Exceptions, child processes and the state of a run *)

Inductive exn :=
| struct_error
| KeyError (key : string)
| CalledProcessError (status : Z) (cmd : list string)
| RuntimeError (msg : string).

Inductive level := INFO | WARNING | ERROR.

(** What a log record is formatted from.  The rendering itself
    ([shlex.join], [bytes.hex(' ', 4)], [str] of an exception) is left
    out. *)
Inductive log_arg :=
| NoArg
| Text (s : string)
| Command (cmd : list string)
| HexDump (b : bytes)
| Exception (e : exn).

(** What a child process did: its exit status, what it printed (standard
    output and standard error together) and, for an upload, the content
    of the file it created. *)
Record CompletedProcess := {
  returncode : Z;
  stdout : string;
  uploaded : bytes
}.

(** What the run does to the outside, in the order it does it. *)
Inductive event :=
| Log (lvl : level) (msg : string) (arg : log_arg)
| FileWritten (name : string) (data : bytes)
| Run (cmd : list string) (check : bool) (res : CompletedProcess)
| StdoutWritten (out : string)
| FileRead (name : string) (data : bytes).

(** The outside of the run: what the n-th child process it starts does,
    the names given to temporary files and directories, and the random
    source of [secrets]. *)
Record environment := {
  child : nat -> CompletedProcess;
  temp_file : nat -> string;
  temp_dir : nat -> string;
  entropy : nat -> byte
}.

(** [DFU_UTIL_0_9] is the module's global; [spawned] counts the child
    processes started so far. *)
Record state := {
  trace : list event;
  spawned : nat;
  DFU_UTIL_0_9 : option bool
}.

Definition initial_state : state :=
  {| trace := []; spawned := 0; DFU_UTIL_0_9 := None |}.

Inductive result (A : Type) :=
| Ok (a : A)
| Raise (e : exn).
Arguments Ok {A} a.
Arguments Raise {A} e.

Definition M (A : Type) : Type := state -> result A * state.

Definition ret {A} (a : A) : M A := fun s => (Ok a, s).

Definition raise {A} (e : exn) : M A := fun s => (Raise e, s).

Definition bind {A B} (m : M A) (k : A -> M B) : M B :=
  fun s =>
    match m s with
    | (Ok a, s') => k a s'
    | (Raise e, s') => (Raise e, s')
    end.

(** [try: body except Exception as e: handler(e)] *)
Definition try_except (body : M unit) (handler : exn -> M unit) : M unit :=
  fun s =>
    match body s with
    | (Ok a, s') => (Ok a, s')
    | (Raise e, s') => handler e s'
    end.

Declare Scope py_scope.
Delimit Scope py_scope with py.
Notation "x <- m ;; k" := (bind m (fun x => k))
  (at level 61, m at next level, right associativity) : py_scope.
Notation "m ;; k" := (bind m (fun _ => k))
  (at level 61, right associativity) : py_scope.
Local Open Scope py_scope.

Definition emit (e : event) : M unit :=
  fun s =>
    (Ok tt, {| trace := trace s ++ [e];
               spawned := spawned s;
               DFU_UTIL_0_9 := DFU_UTIL_0_9 s |}).

Definition logging (lvl : level) (msg : string) (arg : log_arg) : M unit :=
  emit (Log lvl msg arg).

Definition get_DFU_UTIL_0_9 : M (option bool) :=
  fun s => (Ok (DFU_UTIL_0_9 s), s).

Definition set_DFU_UTIL_0_9 (v : bool) : M unit :=
  fun s =>
    (Ok tt, {| trace := trace s;
               spawned := spawned s;
               DFU_UTIL_0_9 := Some v |}).

(** A pure encoder called from the run: [struct.error] propagates. *)
Definition lift {A} (o : option A) : M A :=
  match o with
  | Some a => ret a
  | None => raise struct_error
  end.

(** The truth value of [DFU_UTIL_0_9], which may be [None]. *)
Definition truthy (o : option bool) : bool :=
  match o with Some b => b | None => false end.

Section Run.

Variable env : environment.

(** [subprocess.run(cmd, check=...)]; [subprocess.check_call(cmd)] is
    the same with [check=True]. *)
Definition subprocess_run (cmd : list string) (check : bool)
  : M CompletedProcess :=
  fun s =>
    let res := child env (spawned s) in
    let s' := {| trace := trace s ++ [Run cmd check res];
                 spawned := S (spawned s);
                 DFU_UTIL_0_9 := DFU_UTIL_0_9 s |} in
    if check && negb (returncode res =? 0)
    then (Raise (CalledProcessError (returncode res) cmd), s')
    else (Ok res, s').

(** [res.check_returncode()] *)
Definition check_returncode (cmd : list string) (res : CompletedProcess)
  : M unit :=
  if negb (returncode res =? 0)
  then raise (CalledProcessError (returncode res) cmd)
  else ret tt.

(** [secrets.token_bytes(n)] *)
Definition token_bytes (n : Z) : bytes :=
  map (entropy env) (seq 0 (Z.to_nat n)).

End Run.

(** [needle in haystack] on byte strings. *)
Fixpoint contains (needle haystack : string) : bool :=
  String.prefix needle haystack ||
  match haystack with
  | EmptyString => false
  | String _ rest => contains needle rest
  end.

(** [a == b] on byte strings. *)
Fixpoint bytes_eqb (a b : bytes) : bool :=
  match a, b with
  | [], [] => true
  | x :: a', y :: b' => Byte.eqb x y && bytes_eqb a' b'
  | _, _ => false
  end.

(** [s.startswith(prefix)] *)
Definition startswith (s prefix : string) : bool := String.prefix prefix s.

(** ** TTN info and FLASH upload info *)

Definition APP_EUI : Z := 0x70B3D57ED00003BA.
Definition APP_ID : string := "meet-je-stad".
Definition FREQUENCY_PLAN : string := "EU_863_870_TTN".
Definition LORAWAN_VERSION : string := "MAC_V1_0".
Definition LORAWAN_PHY_VERSION : string := "PHY_V1_0".

(** [DEVICE_ID_TEMPLATE.format(n)] with the template ['meetstation-{}']. *)
Definition DEVICE_ID_TEMPLATE_format (n : Z) : string :=
  ("meetstation-" ++ str_int n)%string.

Definition DFU_VIDPID : string := "0483:df11".
Definition DFU_FLASH_ALT : string := "0".
Definition DFU_OPTION_ALT : string := "1".

Record BoardInfo := {
  info_board_id : Z;
  info_board_version : Z
}.

Definition BOARDS : list (string * BoardInfo) :=
  [("mjs2020-proto2"%string, {| info_board_id := 0x2; info_board_version := 0x01 |});
   ("mjs2020-proto3"%string, {| info_board_id := 0x2; info_board_version := 0x02 |});
   ("mjs2020-proto4"%string, {| info_board_id := 0x2; info_board_version := 0x03 |});
   ("other"%string, {| info_board_id := 0x0; info_board_version := 0x0 |})].

Fixpoint lookup (key : string) (table : list (string * BoardInfo))
    : option BoardInfo :=
  match table with
  | [] => None
  | (k, v) :: rest => if String.eqb k key then Some v else lookup key rest
  end.

(** The parsed command line. *)
Record Namespace := {
  board : string;
  id : Z;
  flash_filename : option string;
  option_filename : option string;
  skip_flash : bool;
  skip_register : bool;
  unprotect : bool
}.

(** ** Programming and verifying over DFU, registering with TTN *)

Definition ignoring_1 : string :=
  "Ignoring error from dfu-util, it is *probably* only because dfu-util does not handle a reset after writing option bytes.".
Definition ignoring_2 : string :=
  "Using dfu-util 0.10 or above handles this properly.".
Definition benign_output : string :=
  "dfu-util: Error during download get_status".
Definition verification_failed : string :=
  "Verification of flash failed, data read back was different. Maybe you need to --unprotect first?".

Definition download_cmd (alt addr_arg name : string) : list string :=
  ["dfu-util"; "-d"; DFU_VIDPID; "-a"; alt; "--dfuse-address"; addr_arg;
   "-D"; name]%string.

Definition upload_cmd (alt addr_arg name : string) : list string :=
  ["dfu-util"; "-d"; DFU_VIDPID; "-a"; alt; "--dfuse-address"; addr_arg;
   "-U"; name]%string.

Definition version_cmd : list string := ["dfu-util"; "--version"]%string.

Definition create_cmd (app_id dev_id dev_eui_hex app_key_hex join_eui_hex
    lorawan_version lorawan_phy_version frequency_plan : string)
    : list string :=
  ["ttn-lw-cli"; "end-devices"; "create";
   "--application-id"; app_id;
   "--device-id"; dev_id;
   "--dev-eui"; dev_eui_hex;
   "--root-keys.app-key.key"; app_key_hex;
   "--join-eui"; join_eui_hex;
   "--lorawan-version"; lorawan_version;
   "--lorawan-phy-version"; lorawan_phy_version;
   "--frequency-plan-id"; frequency_plan]%string.

Section Programmer.

Variable env : environment.

Definition check_dfu_version : M bool :=
  res <- subprocess_run env version_cmd true;;
  ret (startswith (stdout res) "dfu-util 0.9").

Definition program_dfu (alt : string) (data : bytes) (address : Z)
    (filename : option string) (noop will_reset : bool) : M unit :=
  fun s0 =>
    (let name :=
       match filename with
       | Some (String c rest) => String c rest
       | _ => temp_file env (spawned s0)
       end in
     emit (FileWritten name data);;
     dfu_util_0_9 <- get_DFU_UTIL_0_9;;
     let addr_arg :=
       if will_reset && negb (truthy dfu_util_0_9)
       then (hex address ++ ":will-reset")%string
       else hex address in
     let cmd := download_cmd alt addr_arg name in
     if noop then
       logging INFO "Not running: %s" (Command cmd)
     else
       logging INFO "Running: %s" (Command cmd);;
       if will_reset && truthy dfu_util_0_9 then
         res <- subprocess_run env cmd false;;
         emit (StdoutWritten (stdout res));;
         if (returncode res =? 74) && contains benign_output (stdout res)
         then
           logging WARNING ignoring_1 NoArg;;
           logging WARNING ignoring_2 NoArg
         else
           check_returncode cmd res
       else
         _ <- subprocess_run env cmd true;;
         ret tt) s0.

Definition verify_dfu (alt : string) (data : bytes) (address : Z) : M unit :=
  fun s0 =>
    (let filename := (temp_dir env (spawned s0) ++ "/verify.bin")%string in
     let addr_arg :=
       (hex address ++ ":" ++ hex (Z.of_nat (List.length data)))%string in
     let cmd := upload_cmd alt addr_arg filename in
     logging INFO "Running: %s" (Command cmd);;
     res <- subprocess_run env cmd true;;
     let read_back := uploaded res in
     emit (FileRead filename read_back);;
     if negb (bytes_eqb read_back data)
     then raise (RuntimeError verification_failed)
     else ret tt) s0.

Definition program_flash (args : Namespace) (flash : bytes) (offset : Z)
  : M unit :=
  let padding := offset mod FLASH_ALIGN in
  let data := repeat Byte.x00 (Z.to_nat padding) ++ flash in
  let address := FLASH_START_ADDRESS + offset - padding in
  program_dfu DFU_FLASH_ALT data address (flash_filename args)
    (skip_flash args) false;;
  if negb (skip_flash args)
  then verify_dfu DFU_FLASH_ALT data address
  else ret tt.

Definition program_option_bytes (args : Namespace) (data : bytes) : M unit :=
  program_dfu DFU_OPTION_ALT data OPTION_START_ADDRESS (option_filename args)
    (skip_flash args) true.

(** [struct.pack('>Q', eui).hex()] *)
Definition hex_eui (eui : Z) : option string :=
  option_map bytes_hex (pack ">Q" [VInt eui]).

Definition register_device (args : Namespace) (app_id dev_id : string)
    (app_eui dev_eui : Z) (app_key : bytes)
    (frequency_plan lorawan_version lorawan_phy_version : string) : M unit :=
  dev_eui_hex <- lift (hex_eui dev_eui);;
  join_eui_hex <- lift (hex_eui app_eui);;
  let cmd :=
    create_cmd app_id dev_id dev_eui_hex (bytes_hex app_key) join_eui_hex
      lorawan_version lorawan_phy_version frequency_plan in
  if skip_register args then
    logging INFO "Not running: %s" (Command cmd)
  else
    logging INFO "Running: %s" (Command cmd);;
    _ <- subprocess_run env cmd true;;
    ret tt.

(** The body of the [try] statement of [main]. *)
Definition main_body (args : Namespace) : M unit :=
  dfu_util_0_9 <- get_DFU_UTIL_0_9;;
  (if negb (skip_flash args) &&
      match dfu_util_0_9 with None => true | Some _ => false end
   then v <- check_dfu_version;; set_DFU_UTIL_0_9 v
   else ret tt);;
  (if unprotect args then
     option <- lift (encode_option_bytes OPTION_BYTES_UNPROTECTED);;
     logging INFO "Encoded OPTION bytes: %s" (HexDump option);;
     program_option_bytes args option
   else
     let app_eui := APP_EUI in
     let app_id := APP_ID in
     let frequency_plan := FREQUENCY_PLAN in
     let lorawan_version := LORAWAN_VERSION in
     let lorawan_phy_version := LORAWAN_PHY_VERSION in
     let dev_eui := id args in
     let dev_id := DEVICE_ID_TEMPLATE_format (id args) in
     let app_key := token_bytes env KEY_SIZE in
     board_info <-
       match lookup (board args) BOARDS with
       | Some b => ret b
       | None => raise (KeyError (board args))
       end;;
     flash <- lift (generate_flash app_eui dev_eui app_key
                      (info_board_id board_info)
                      (info_board_version board_info));;
     logging INFO "Generated FLASH contents: %s" (HexDump flash);;
     (if negb (skip_flash args)
      then logging INFO "Programming FLASH..." NoArg
      else logging INFO "Not programming FLASH..." NoArg);;
     let flash_offset := FLASH_SIZE - Z.of_nat (List.length flash) in
     program_flash args flash flash_offset;;
     (if negb (skip_flash args)
      then logging INFO "Programmed FLASH" NoArg
      else ret tt);;
     option <- lift (encode_option_bytes OPTION_BYTES_PROTECTED);;
     logging INFO "Encoded OPTION bytes: %s" (HexDump option);;
     program_option_bytes args option;;
     (if negb (skip_register args)
      then logging INFO "Registering %s on TTN..." (Text dev_id)
      else logging INFO "Not registering %s on TTN..." (Text dev_id));;
     register_device args app_id dev_id app_eui dev_eui app_key
       frequency_plan lorawan_version lorawan_phy_version;;
     (if negb (skip_register args)
      then logging INFO "Registered device on TTN." NoArg
      else ret tt));;
  if negb (skip_flash args)
  then logging INFO "Note: Device was restarted." NoArg
  else ret tt.

Definition main (args : Namespace) : M unit :=
  try_except (main_body args)
    (fun e => logging ERROR "%s" (Exception e)).

(** The script calls [main()] and ends: the exit status of the process
    is 0 when [main] returns and 1 when an exception leaves it. *)
Definition script (args : Namespace) : list event * Z :=
  match main args initial_state with
  | (Ok _, s) => (trace s, 0)
  | (Raise _, s) => (trace s, 1)
  end.

End Programmer.

(** * Notions the properties are stated with *)

(** [z] fits an unsigned integer of [n] bytes. *)
Definition uint (n : nat) (z : Z) : Prop := 0 <= z < 2 ^ (8 * Z.of_nat n).

(** [int.from_bytes]: the integer a reader recovers from bytes in the
    given byte order. *)
Definition int_from_bytes (o : byte_order) (b : bytes) : Z :=
  match o with
  | LittleEndian => le_combine b
  | BigEndian => le_combine (rev b)
  end.

(** The bytes that follow the CRC field. *)
Definition after_crc (board_id board_version app_eui dev_eui : Z)
    (app_key : bytes) : bytes :=
  int_to_bytes BigEndian 1 board_id ++
  int_to_bytes BigEndian 1 board_version ++
  int_to_bytes BigEndian 8 app_eui ++
  int_to_bytes BigEndian 8 dev_eui ++
  (firstn 16 app_key ++ repeat Byte.x00 (16 - List.length app_key)) ++
  int_to_bytes BigEndian 2 38 ++
  int_to_bytes BigEndian 2 0x0201 ++
  int_to_bytes BigEndian 2 48 ++
  int_to_bytes BigEndian 4 0xB6E03B02.

(** The eight bytes the option image holds for one word. *)
Definition option_word_bytes (word : Z) : bytes :=
  let low := Z.land word 0xFFFF in
  let high := Z.shiftr word 16 in
  int_to_bytes LittleEndian 2 low ++
  int_to_bytes LittleEndian 2 (Z.lxor low 0xFFFF) ++
  int_to_bytes LittleEndian 2 high ++
  int_to_bytes LittleEndian 2 (Z.lxor high 0xFFFF).

(** ** Failures in the trace of a run

    A child has failed, as the script judges it, when a checked run ends
    with a non-zero status, or when the unchecked run of the dfu-util 0.9
    path ends with a non-zero status that is not tolerated (status 74
    with the known text in the output). *)
Definition child_failed (check : bool) (res : CompletedProcess) : bool :=
  (check ||
   negb ((returncode res =? 74) && contains benign_output (stdout res))) &&
  negb (returncode res =? 0).

(** The data of the file written last. *)
Definition note_written (written : option bytes) (e : event) : option bytes :=
  match e with
  | FileWritten _ data => Some data
  | _ => written
  end.

Definition last_written (t : list event) : option bytes :=
  fold_left note_written t None.

(** The step recorded by an event has failed: a child failed, or a file
    read back differs from the data written last. *)
Definition failed (written : option bytes) (e : event) : bool :=
  match e with
  | Run _ check res => child_failed check res
  | FileRead _ data =>
      match written with
      | Some w => negb (bytes_eqb data w)
      | None => false
      end
  | _ => false
  end.

(** Output to the operator: log records and the echo of captured output. *)
Definition is_output (e : event) : bool :=
  match e with
  | Log _ _ _ | StdoutWritten _ => true
  | _ => false
  end.

(** The record [logging.error(e)] leaves. *)
Definition is_error_report (e : event) : bool :=
  match e with
  | Log ERROR _ (Exception _) => true
  | _ => false
  end.

(** Nothing but output, ending with the report of the error. *)
Definition only_reports (t : list event) : bool :=
  forallb is_output t && is_error_report (last t (StdoutWritten EmptyString)).

(** Every failed step is followed by nothing but output that ends with
    the report of the error. *)
Fixpoint aborts_from (written : option bytes) (t : list event) : bool :=
  match t with
  | [] => true
  | e :: rest =>
      (if failed written e then only_reports rest else true) &&
      aborts_from (note_written written e) rest
  end.

(** ** Concrete runs *)

(** dfu-util 0.9 writing option bytes: status 74 and the known text. *)
Definition legacy_env : environment :=
  {| child := fun _ =>
       {| returncode := 74;
          stdout := "dfu-util: Error during download get_status";
          uploaded := [] |};
     temp_file := fun _ => "/tmp/dfu-programmer.bin"%string;
     temp_dir := fun _ => "/tmp/dfu-programmer"%string;
     entropy := fun _ => Byte.x2a |}.

Definition legacy_state : state :=
  {| trace := []; spawned := 1; DFU_UTIL_0_9 := Some true |}.

(** Every child succeeds; dfu-util is a current version. *)
Definition quiet_env : environment :=
  {| child := fun _ =>
       {| returncode := 0; stdout := "dfu-util 0.10"; uploaded := [] |};
     temp_file := fun _ => "/tmp/dfu-programmer.bin"%string;
     temp_dir := fun _ => "/tmp/dfu-programmer"%string;
     entropy := fun _ => Byte.x2a |}.

(** The version query succeeds and every later child exits with status 1. *)
Definition failing_env : environment :=
  {| child := fun n =>
       match n with
       | O => {| returncode := 0; stdout := "dfu-util 0.10"; uploaded := [] |}
       | _ => {| returncode := 1; stdout := EmptyString; uploaded := [] |}
       end;
     temp_file := fun _ => "/tmp/dfu-programmer.bin"%string;
     temp_dir := fun _ => "/tmp/dfu-programmer"%string;
     entropy := fun _ => Byte.x2a |}.

Definition proto3_args : Namespace :=
  {| board := "mjs2020-proto3";
     id := 42;
     flash_filename := None;
     option_filename := None;
     skip_flash := false;
     skip_register := false;
     unprotect := false |}.

Definition unprotect_args : Namespace :=
  {| board := "mjs2020-proto3";
     id := 42;
     flash_filename := None;
     option_filename := None;
     skip_flash := false;
     skip_register := false;
     unprotect := true |}.

(** * Notions the further properties are stated with *)

(** [b[i:j]] of a byte string, for [0 <= i <= j]. *)
Definition slice (i j : nat) (b : bytes) : bytes := firstn (j - i) (skipn i b).

(** The file [program_dfu] writes: the one named, or a fresh temporary
    file when no name (or an empty one) is given. *)
Definition staging_file (env : environment) (filename : option string)
    (s : state) : string :=
  match filename with
  | Some (String c rest) => String c rest
  | _ => temp_file env (spawned s)
  end.

(** ** The steps of a run

    What a child process of the run is for, read off its command line. *)
Inductive step :=
| Version        (* dfu-util --version *)
| WriteFlash     (* dfu-util -a 0 ... -D file *)
| ReadFlash      (* dfu-util -a 0 ... -U file *)
| WriteOption    (* dfu-util -a 1 ... -D file *)
| ReadOption     (* dfu-util -a 1 ... -U file *)
| Register.      (* ttn-lw-cli end-devices create ... *)

Definition step_of (cmd : list string) : option step :=
  let arg (n : nat) := nth n cmd EmptyString in
  if (arg 0%nat =? "ttn-lw-cli")%string then Some Register
  else if negb (arg 0%nat =? "dfu-util")%string then None
  else if (arg 1%nat =? "--version")%string then Some Version
  else if (arg 7%nat =? "-D")%string then
    if (arg 4%nat =? DFU_FLASH_ALT)%string then Some WriteFlash
    else if (arg 4%nat =? DFU_OPTION_ALT)%string then Some WriteOption
    else None
  else if (arg 7%nat =? "-U")%string then
    if (arg 4%nat =? DFU_FLASH_ALT)%string then Some ReadFlash
    else if (arg 4%nat =? DFU_OPTION_ALT)%string then Some ReadOption
    else None
  else None.

(** The steps of the child processes of a trace, in the order they ran. *)
Fixpoint steps (t : list event) : list (option step) :=
  match t with
  | [] => []
  | Run cmd _ _ :: rest => step_of cmd :: steps rest
  | _ :: rest => steps rest
  end.

(** The steps a run is to take, by its command line. *)
Definition plan (args : Namespace) : list step :=
  (if skip_flash args then [] else [Version]) ++
  (if unprotect args then
     if skip_flash args then [] else [WriteOption]
   else
     (if skip_flash args then [] else [WriteFlash; ReadFlash; WriteOption]) ++
     (if skip_register args then [] else [Register])).

(** No step of the trace has failed. *)
Fixpoint no_failure (written : option bytes) (t : list event) : bool :=
  match t with
  | [] => true
  | e :: rest =>
      negb (failed written e) && no_failure (note_written written e) rest
  end.

(** A record at level ERROR. *)
Definition is_error (e : event) : bool :=
  match e with
  | Log ERROR _ _ => true
  | _ => false
  end.

(** A digit of lower-case hexadecimal. *)
Definition is_hex_digit (c : ascii) : bool :=
  let n := nat_of_ascii c in
  ((48 <=? n) && (n <=? 57) || (97 <=? n) && (n <=? 102))%nat.

(** ** More concrete runs *)

(** The block of station 42 on a mjs2020-proto3 board, for the key the
    environments below draw. *)
Definition proto3_flash : bytes :=
  Eval vm_compute in
    match generate_flash APP_EUI 42 (repeat Byte.x2a 16) 2 2 with
    | Some flash => flash
    | None => []
    end.

(** Every child succeeds, and the upload reads back what was written. *)
Definition good_env : environment :=
  {| child := fun _ =>
       {| returncode := 0;
          stdout := "dfu-util 0.10";
          uploaded := repeat Byte.x00 80 ++ proto3_flash |};
     temp_file := fun _ => "/tmp/dfu-programmer.bin"%string;
     temp_dir := fun _ => "/tmp/dfu-programmer"%string;
     entropy := fun _ => Byte.x2a |}.


(** * Properties *)

(** ** The formats and the pieces of an encoding *)

Lemma SEGMENT_FORMAT_parsed :
  parse SEGMENT_FORMAT = Some (BigEndian, [cB; cB; cQ; cQ; cs 16; cH; cH]).
Proof. reflexivity. Qed.

Lemma BLOCK_FORMAT_parsed :
  parse BLOCK_FORMAT =
  Some (BigEndian, [cI; cB; cB; cQ; cQ; cs 16; cH; cH; cH; cI]).
Proof. reflexivity. Qed.

Lemma SEGMENT_FORMAT_size : calcsize SEGMENT_FORMAT = Some 38.
Proof. reflexivity. Qed.

Lemma BLOCK_FORMAT_size : calcsize BLOCK_FORMAT = Some 48.
Proof. reflexivity. Qed.

Lemma int_to_bytes_length o n z : List.length (int_to_bytes o n z) = n.
Proof.
  destruct o; simpl.
  - apply length_le_split.
  - rewrite length_rev. apply length_le_split.
Qed.

Lemma int_from_to_bytes o n z :
  uint n z -> int_from_bytes o (int_to_bytes o n z) = z.
Proof.
  unfold uint. intros H.
  destruct o; simpl; rewrite ?rev_involutive, le_combine_split;
    apply Z.mod_small; rewrite Z.mul_comm; exact H.
Qed.

Example int_to_bytes_big_endian :
  int_to_bytes BigEndian 4 0x01020304 = [Byte.x01; Byte.x02; Byte.x03; Byte.x04].
Proof. reflexivity. Qed.

(** ** The checksum is a 32-bit value *)

Lemma lxor_range n a b :
  0 < n -> 0 <= a < 2 ^ n -> 0 <= b < 2 ^ n -> 0 <= Z.lxor a b < 2 ^ n.
Proof.
  intros Hn Ha Hb. split.
  - apply Z.lxor_nonneg. lia.
  - destruct (Z.eq_dec (Z.lxor a b) 0) as [E|E].
    + rewrite E. apply Z.pow_pos_nonneg; lia.
    + assert (0 <= Z.lxor a b) by (apply Z.lxor_nonneg; lia).
      apply Z.log2_lt_pow2; [lia|].
      pose proof (Z.log2_lxor a b ltac:(lia) ltac:(lia)) as Hl.
      assert (Z.log2 a < n).
      { destruct (Z.eq_dec a 0) as [->|]; [simpl|apply Z.log2_lt_pow2]; lia. }
      assert (Z.log2 b < n).
      { destruct (Z.eq_dec b 0) as [->|]; [simpl|apply Z.log2_lt_pow2]; lia. }
      lia.
Qed.

Lemma shift_bits_range n c :
  0 <= c < 2 ^ 32 -> 0 <= Crc32c.shift_bits n c < 2 ^ 32.
Proof.
  revert c. induction n as [|n IH]; intros c Hc; cbn [Crc32c.shift_bits];
    [exact Hc|].
  apply IH.
  assert (Hs : 0 <= Z.shiftr c 1 < 2 ^ 32).
  { rewrite Z.shiftr_div_pow2 by lia. change (2 ^ 1) with 2.
    split; [apply Z.div_pos; lia|].
    apply Z.div_lt_upper_bound; lia. }
  destruct (Z.testbit c 0); [|exact Hs].
  apply lxor_range; [lia|exact Hs|unfold Crc32c.POLY; lia].
Qed.

Lemma update_range c b :
  0 <= c < 2 ^ 32 -> 0 <= Crc32c.update c b < 2 ^ 32.
Proof.
  intros Hc. unfold Crc32c.update. apply shift_bits_range.
  apply lxor_range; [lia|exact Hc|].
  pose proof (byte.unsigned_range b). lia.
Qed.

Lemma crc32c_range data : uint 4 (Crc32c.crc32c data).
Proof.
  unfold uint, Crc32c.crc32c. change (8 * Z.of_nat 4) with 32.
  apply lxor_range; [lia| |lia].
  assert (H : 0 <= 0xFFFFFFFF < 2 ^ 32) by lia.
  revert H. generalize 0xFFFFFFFF.
  induction data as [|b data IH]; intros c Hc; simpl; [exact Hc|].
  apply IH, update_range, Hc.
Qed.

(** The check value of CRC-32C. *)
Example crc32c_check :
  Crc32c.crc32c (list_byte_of_string "123456789") = 0xE3069283.
Proof. vm_compute. reflexivity. Qed.

(** ** [generate_flash] *)

Lemma pack_field_int o c z :
  (forall n, c <> cs n) -> uint (width c) z ->
  pack_field o c (VInt z) = Some (int_to_bytes o (width c) z).
Proof.
  unfold uint. intros Hc Hz.
  assert (E : (0 <=? z) && (z <? 2 ^ (8 * Z.of_nat (width c))) = true).
  { apply andb_true_intro. split; [apply Z.leb_le|apply Z.ltb_lt]; lia. }
  destruct c; simpl in *; try (rewrite E; reflexivity).
  exfalso. eapply Hc. reflexivity.
Qed.

Lemma pack_BLOCK_FORMAT (e : EepromContents) :
  uint 4 (crc e) -> uint 1 (board_id e) -> uint 1 (board_version e) ->
  uint 8 (app_eui e) -> uint 8 (dev_eui e) ->
  uint 2 (segment_size e) -> uint 2 (segment_type e) ->
  uint 2 (total_size e) -> uint 4 (magic e) ->
  pack BLOCK_FORMAT (fields e) =
  Some (int_to_bytes BigEndian 4 (crc e) ++
        int_to_bytes BigEndian 1 (board_id e) ++
        int_to_bytes BigEndian 1 (board_version e) ++
        int_to_bytes BigEndian 8 (app_eui e) ++
        int_to_bytes BigEndian 8 (dev_eui e) ++
        (firstn 16 (app_key e) ++
           repeat Byte.x00 (16 - List.length (app_key e))) ++
        int_to_bytes BigEndian 2 (segment_size e) ++
        int_to_bytes BigEndian 2 (segment_type e) ++
        int_to_bytes BigEndian 2 (total_size e) ++
        int_to_bytes BigEndian 4 (magic e)).
Proof.
  intros.
  unfold pack. rewrite BLOCK_FORMAT_parsed. unfold fields, pack_fields.
  rewrite !pack_field_int by (assumption || discriminate).
  cbn [pack_field width]. rewrite app_nil_r. reflexivity.
Qed.

Lemma uint_const n z :
  ((0 <=? z) && (z <? 2 ^ (8 * Z.of_nat n)) = true) -> uint n z.
Proof.
  unfold uint. intros H. apply andb_prop in H. destruct H as [H1 H2].
  apply Z.leb_le in H1. apply Z.ltb_lt in H2. lia.
Qed.

Lemma pack_with_crc c board_id board_version app_eui dev_eui app_key :
  uint 4 c -> uint 1 board_id -> uint 1 board_version ->
  uint 8 app_eui -> uint 8 dev_eui ->
  pack BLOCK_FORMAT
    (fields (replace_crc
               (mkEepromContents 0 board_id board_version app_eui dev_eui
                  app_key) c)) =
  Some (int_to_bytes BigEndian 4 c ++
        after_crc board_id board_version app_eui dev_eui app_key).
Proof.
  intros. rewrite pack_BLOCK_FORMAT; try assumption;
    try (apply uint_const; reflexivity).
  reflexivity.
Qed.

Lemma replace_crc_same c board_id board_version app_eui dev_eui app_key :
  replace_crc
    (mkEepromContents c board_id board_version app_eui dev_eui app_key) c =
  mkEepromContents c board_id board_version app_eui dev_eui app_key.
Proof. reflexivity. Qed.

Lemma skipn_int_to_bytes_app o n z (rest : bytes) :
  skipn n (int_to_bytes o n z ++ rest) = rest.
Proof.
  rewrite skipn_app, int_to_bytes_length, Nat.sub_diag.
  rewrite skipn_all2 by (rewrite int_to_bytes_length; lia).
  reflexivity.
Qed.

Lemma firstn_int_to_bytes_app o n z (rest : bytes) :
  firstn n (int_to_bytes o n z ++ rest) = int_to_bytes o n z.
Proof.
  rewrite firstn_app, int_to_bytes_length, Nat.sub_diag.
  rewrite firstn_all2 by (rewrite int_to_bytes_length; lia).
  simpl. apply app_nil_r.
Qed.

Lemma generate_flash_eq app_eui dev_eui app_key board_id board_version :
  uint 1 board_id -> uint 1 board_version ->
  uint 8 app_eui -> uint 8 dev_eui ->
  generate_flash app_eui dev_eui app_key board_id board_version =
  Some (int_to_bytes BigEndian 4
          (Crc32c.crc32c
             (after_crc board_id board_version app_eui dev_eui app_key)) ++
        after_crc board_id board_version app_eui dev_eui app_key).
Proof.
  intros. unfold generate_flash.
  rewrite <- (replace_crc_same 0) at 1.
  rewrite pack_with_crc by (assumption || (apply uint_const; reflexivity)).
  cbv zeta. unfold CRC_SIZE. rewrite skipn_int_to_bytes_app.
  apply pack_with_crc; try assumption. apply crc32c_range.
Qed.

Lemma after_crc_length board_id board_version app_eui dev_eui app_key :
  List.length (after_crc board_id board_version app_eui dev_eui app_key) = 44%nat.
Proof.
  unfold after_crc.
  rewrite !length_app, !int_to_bytes_length, length_firstn, repeat_length.
  lia.
Qed.

Ltac solve_uint :=
  unfold uint; split; [apply Z.leb_le | apply Z.ltb_lt]; reflexivity.

Ltac solve_hyp :=
  first [ solve_uint
        | reflexivity
        | lia
        | repeat (apply Forall_cons || apply Forall_nil); solve_uint ].

(** C1 (amended).  For every valid input (board_id and board_version of
    one byte, app_eui and dev_eui of eight bytes, a 16-byte app_key) the
    encoded block is exactly 48 bytes long and its fields appear in the
    wire order crc (the first 4 bytes), board_id, board_version, app_eui,
    dev_eui, app_key, segment_size (2 bytes, 38), segment_type (2 bytes,
    0x0201), total_size (2 bytes, 48), magic (the last 4 bytes,
    0xB6E03B02), with multi-byte integers big-endian. *)
Theorem generate_flash_layout app_eui dev_eui app_key board_id board_version :
  uint 1 board_id -> uint 1 board_version ->
  uint 8 app_eui -> uint 8 dev_eui ->
  List.length app_key = 16%nat ->
  exists c,
    generate_flash app_eui dev_eui app_key board_id board_version =
    Some (int_to_bytes BigEndian 4 c ++
          int_to_bytes BigEndian 1 board_id ++
          int_to_bytes BigEndian 1 board_version ++
          int_to_bytes BigEndian 8 app_eui ++
          int_to_bytes BigEndian 8 dev_eui ++
          app_key ++
          int_to_bytes BigEndian 2 38 ++
          int_to_bytes BigEndian 2 0x0201 ++
          int_to_bytes BigEndian 2 48 ++
          int_to_bytes BigEndian 4 0xB6E03B02) /\
    uint 4 c /\
    forall flash,
      generate_flash app_eui dev_eui app_key board_id board_version =
      Some flash ->
      List.length flash = 48%nat.
Proof.
  intros Hid Hver Happ Hdev Hkey.
  pose proof (generate_flash_eq app_eui dev_eui app_key board_id
                board_version Hid Hver Happ Hdev) as E.
  exists (Crc32c.crc32c
            (after_crc board_id board_version app_eui dev_eui app_key)).
  split; [|split].
  - rewrite E. unfold after_crc.
    rewrite Hkey, Nat.sub_diag. simpl repeat. rewrite app_nil_r.
    rewrite firstn_all2 by lia. reflexivity.
  - apply crc32c_range.
  - intros flash Hflash. rewrite E in Hflash.
    injection Hflash as Hflash. subst flash.
    cbn [List.length]. rewrite after_crc_length. reflexivity.
Qed.

Lemma generate_flash_layout_witness :
  uint 1 2 /\
  uint 1 2 /\
  uint 8 APP_EUI /\
  uint 8 42 /\
  List.length (repeat Byte.x01 16) = 16%nat /\
  (exists c,
      generate_flash APP_EUI 42 (repeat Byte.x01 16) 2 2 =
      Some (int_to_bytes BigEndian 4 c ++
            int_to_bytes BigEndian 1 2 ++
            int_to_bytes BigEndian 1 2 ++
            int_to_bytes BigEndian 8 APP_EUI ++
            int_to_bytes BigEndian 8 42 ++
            (repeat Byte.x01 16) ++
            int_to_bytes BigEndian 2 38 ++
            int_to_bytes BigEndian 2 0x0201 ++
            int_to_bytes BigEndian 2 48 ++
            int_to_bytes BigEndian 4 0xB6E03B02) /\
      uint 4 c /\
      forall flash,
        generate_flash APP_EUI 42 (repeat Byte.x01 16) 2 2 =
        Some flash ->
        List.length flash = 48%nat).
Proof.
  do 5 (split; [solve_hyp|]).
  apply (generate_flash_layout APP_EUI 42 (repeat Byte.x01 16) 2 2); solve_hyp.
Defined.

(** C1 as stated fails: for board mjs2020-proto3, id 42 and a 16-byte key
    the block is not 60 bytes long, does not start with the magic, and
    ends with the magic, not with the crc. *)
Lemma generate_flash_60_bytes_counterexample :
  exists flash,
    generate_flash APP_EUI 42 (repeat Byte.x01 16) 2 2 = Some flash /\
    List.length flash <> 60%nat /\
    firstn 4 flash <> int_to_bytes BigEndian 4 0xB6E03B02 /\
    skipn (List.length flash - 4) flash = int_to_bytes BigEndian 4 0xB6E03B02.
Proof.
  eexists. split; [vm_compute; reflexivity|].
  split; [|split]; vm_compute; congruence.
Qed.

(** C2.  For every valid input the encoder serializes the block with crc
    0 ([binary_before_crc], whose first 4 bytes are the zero crc field),
    checksums every byte after the first 4, and serializes again with
    the checksum in the crc field: the first 4 bytes of the result are
    the big-endian CRC-32C of the rest of the zero-crc serialization, and
    the rest is unchanged. *)
Theorem generate_flash_crc app_eui dev_eui app_key board_id board_version :
  uint 1 board_id -> uint 1 board_version ->
  uint 8 app_eui -> uint 8 dev_eui ->
  List.length app_key = 16%nat ->
  exists binary_before_crc flash,
    pack BLOCK_FORMAT
      (fields (mkEepromContents 0 board_id board_version app_eui dev_eui
                 app_key)) = Some binary_before_crc /\
    generate_flash app_eui dev_eui app_key board_id board_version =
      Some flash /\
    firstn CRC_SIZE binary_before_crc = int_to_bytes BigEndian 4 0 /\
    skipn CRC_SIZE flash = skipn CRC_SIZE binary_before_crc /\
    firstn CRC_SIZE flash =
      int_to_bytes BigEndian 4
        (Crc32c.crc32c (skipn CRC_SIZE binary_before_crc)) /\
    int_from_bytes BigEndian (firstn CRC_SIZE flash) =
      Crc32c.crc32c (skipn CRC_SIZE binary_before_crc).
Proof.
  intros Hid Hver Happ Hdev _.
  pose proof (generate_flash_eq app_eui dev_eui app_key board_id
                board_version Hid Hver Happ Hdev) as E.
  pose proof (pack_with_crc 0 board_id board_version app_eui dev_eui app_key
                ltac:(solve_uint) Hid Hver Happ Hdev) as P.
  rewrite replace_crc_same in P.
  eexists. eexists.
  split; [exact P|]. split; [exact E|].
  unfold CRC_SIZE.
  rewrite !skipn_int_to_bytes_app, !firstn_int_to_bytes_app.
  repeat split.
  apply int_from_to_bytes, crc32c_range.
Qed.

Lemma generate_flash_crc_witness :
  uint 1 2 /\
  uint 1 2 /\
  uint 8 APP_EUI /\
  uint 8 42 /\
  List.length (repeat Byte.x01 16) = 16%nat /\
  (exists binary_before_crc flash,
      pack BLOCK_FORMAT
        (fields (mkEepromContents 0 2 2 APP_EUI 42
                   (repeat Byte.x01 16))) = Some binary_before_crc /\
      generate_flash APP_EUI 42 (repeat Byte.x01 16) 2 2 =
        Some flash /\
      firstn CRC_SIZE binary_before_crc = int_to_bytes BigEndian 4 0 /\
      skipn CRC_SIZE flash = skipn CRC_SIZE binary_before_crc /\
      firstn CRC_SIZE flash =
        int_to_bytes BigEndian 4
          (Crc32c.crc32c (skipn CRC_SIZE binary_before_crc)) /\
      int_from_bytes BigEndian (firstn CRC_SIZE flash) =
        Crc32c.crc32c (skipn CRC_SIZE binary_before_crc)).
Proof.
  do 5 (split; [solve_hyp|]).
  apply (generate_flash_crc APP_EUI 42 (repeat Byte.x01 16) 2 2); solve_hyp.
Defined.

(** C8 (amended).  An app_key whose length is not 16 bytes does not make
    the encoding fail: with the integer fields in range, the encoder
    returns a 48-byte block for a key of any length, the block of the key
    truncated to its first 16 bytes or padded with null bytes to 16
    bytes. *)
Theorem generate_flash_fits_key app_eui dev_eui app_key board_id board_version :
  uint 1 board_id -> uint 1 board_version ->
  uint 8 app_eui -> uint 8 dev_eui ->
  exists flash,
    generate_flash app_eui dev_eui app_key board_id board_version =
      Some flash /\
    List.length flash = 48%nat /\
    generate_flash app_eui dev_eui
      (firstn 16 app_key ++ repeat Byte.x00 (16 - List.length app_key))
      board_id board_version = Some flash.
Proof.
  intros Hid Hver Happ Hdev.
  rewrite !generate_flash_eq by assumption.
  eexists. split; [reflexivity|]. split.
  - rewrite length_app, int_to_bytes_length, after_crc_length. reflexivity.
  - assert (K : after_crc board_id board_version app_eui dev_eui
                  (firstn 16 app_key ++
                   repeat Byte.x00 (16 - List.length app_key)) =
                after_crc board_id board_version app_eui dev_eui app_key).
    { unfold after_crc. do 4 f_equal.
      set (k := firstn 16 app_key ++ repeat Byte.x00 (16 - List.length app_key)).
      assert (Hk : List.length k = 16%nat).
      { unfold k. rewrite length_app, length_firstn, repeat_length. lia. }
      rewrite Hk, Nat.sub_diag. simpl repeat. rewrite app_nil_r.
      rewrite firstn_all2 by lia. reflexivity. }
    rewrite K. reflexivity.
Qed.

Lemma generate_flash_fits_key_witness :
  uint 1 2 /\
  uint 1 2 /\
  uint 8 APP_EUI /\
  uint 8 42 /\
  (exists flash,
      generate_flash APP_EUI 42 [Byte.x01; Byte.x02; Byte.x03] 2 2 =
        Some flash /\
      List.length flash = 48%nat /\
      generate_flash APP_EUI 42
        (firstn 16 [Byte.x01; Byte.x02; Byte.x03] ++ repeat Byte.x00 (16 - List.length [Byte.x01; Byte.x02; Byte.x03]))
        2 2 = Some flash).
Proof.
  do 4 (split; [solve_hyp|]).
  apply (generate_flash_fits_key APP_EUI 42 [Byte.x01; Byte.x02; Byte.x03] 2 2); solve_hyp.
Defined.

(** C8 as stated fails: a key of 3 bytes and a key of 20 bytes are both
    encoded. *)
Lemma generate_flash_short_key_counterexample :
  List.length [Byte.x01; Byte.x02; Byte.x03] <> 16%nat /\
  generate_flash APP_EUI 42 [Byte.x01; Byte.x02; Byte.x03] 2 2 <> None /\
  List.length (repeat Byte.xff 20) <> 16%nat /\
  generate_flash APP_EUI 42 (repeat Byte.xff 20) 2 2 <> None.
Proof.
  repeat split; vm_compute; congruence.
Qed.

(** ** [encode_option_bytes] *)

Lemma pack_HH hw :
  uint 2 hw ->
  pack "<HH" [VInt hw; VInt (Z.lxor hw 0xffff)] =
  Some (int_to_bytes LittleEndian 2 hw ++
        int_to_bytes LittleEndian 2 (Z.lxor hw 0xffff)).
Proof.
  intros H.
  assert (Hx : uint 2 (Z.lxor hw 0xffff)).
  { unfold uint in *. apply lxor_range; [lia|exact H|].
    split; [apply Z.leb_le | apply Z.ltb_lt]; reflexivity. }
  unfold pack. change (parse "<HH") with (Some (LittleEndian, [cH; cH])).
  unfold pack_fields.
  rewrite !pack_field_int by (assumption || discriminate).
  cbn [width]. rewrite app_nil_r. reflexivity.
Qed.

Lemma halves_range word :
  uint 4 word -> uint 2 (Z.land word 0xffff) /\ uint 2 (Z.shiftr word 16).
Proof.
  unfold uint. change (8 * Z.of_nat 4) with 32. change (8 * Z.of_nat 2) with 16.
  intros H. split.
  - change 0xffff with (Z.ones 16). rewrite Z.land_ones by lia.
    apply Z.mod_pos_bound. lia.
  - rewrite Z.shiftr_div_pow2 by lia. split.
    + apply Z.div_pos; lia.
    + apply Z.div_lt_upper_bound; [lia|]. change (2 ^ 16 * 2 ^ 16) with (2 ^ 32).
      lia.
Qed.

Lemma for_each_cons {A S : Type} (x : A) rest (body : S -> A -> option S) s :
  for_each (x :: rest) body s =
  match body s x with
  | Some s' => for_each rest body s'
  | None => None
  end.
Proof. reflexivity. Qed.

Lemma encode_word res word :
  uint 4 word ->
  for_each [Z.land word 0xffff; Z.shiftr word 16]
    (fun res hw =>
       match pack "<HH" [VInt hw; VInt (Z.lxor hw 0xffff)] with
       | Some p => Some (res ++ p)
       | None => None
       end) res =
  Some (res ++ option_word_bytes word).
Proof.
  intros H. destruct (halves_range word H) as [Hl Hh].
  cbn [for_each]. rewrite (pack_HH _ Hl), (pack_HH _ Hh).
  unfold option_word_bytes. cbv zeta. rewrite <- !app_assoc. reflexivity.
Qed.

Lemma encode_words words : forall res,
  Forall (uint 4) words ->
  for_each words
    (fun res word =>
       for_each [Z.land word 0xffff; Z.shiftr word 16]
         (fun res hw =>
            match pack "<HH" [VInt hw; VInt (Z.lxor hw 0xffff)] with
            | Some p => Some (res ++ p)
            | None => None
            end) res) res =
  Some (res ++ flat_map option_word_bytes words).
Proof.
  induction words as [|word words IH]; intros res Hall.
  - simpl. rewrite app_nil_r. reflexivity.
  - inversion Hall as [|? ? Hword Hrest]; subst.
    rewrite for_each_cons, (encode_word res word Hword).
    cbn [flat_map]. rewrite IH by assumption. rewrite <- app_assoc. reflexivity.
Qed.

Lemma option_word_bytes_length word :
  List.length (option_word_bytes word) = 8%nat.
Proof.
  unfold option_word_bytes. cbv zeta.
  rewrite !length_app, !int_to_bytes_length. reflexivity.
Qed.

Lemma option_image_length words :
  List.length (flat_map option_word_bytes words) = (8 * List.length words)%nat.
Proof.
  induction words as [|word words IH]; [reflexivity|].
  cbn [flat_map]. rewrite length_app, option_word_bytes_length, IH.
  cbn [List.length]. lia.
Qed.

(** C3.  For every sequence of 32-bit words, the empty one included, the
    encoder returns (it does not raise), for each word in input order,
    the four little-endian 16-bit units low, low XOR 0xFFFF, high, high
    XOR 0xFFFF with low = word & 0xFFFF and high = word >> 16; the output
    is 8 * len(words) bytes long. *)
Theorem encode_option_bytes_spec (words : list Z) :
  Forall (uint 4) words ->
  exists image,
    encode_option_bytes words = Some image /\
    image =
      flat_map
        (fun word =>
           let low := Z.land word 0xFFFF in
           let high := Z.shiftr word 16 in
           int_to_bytes LittleEndian 2 low ++
           int_to_bytes LittleEndian 2 (Z.lxor low 0xFFFF) ++
           int_to_bytes LittleEndian 2 high ++
           int_to_bytes LittleEndian 2 (Z.lxor high 0xFFFF))
        words /\
    List.length image = (8 * List.length words)%nat.
Proof.
  intros Hall. exists (flat_map option_word_bytes words).
  split; [|split].
  - unfold encode_option_bytes. rewrite encode_words by assumption.
    reflexivity.
  - reflexivity.
  - apply option_image_length.
Qed.

Lemma encode_option_bytes_spec_witness :
  Forall (uint 4) OPTION_BYTES_PROTECTED /\
  (exists image,
      encode_option_bytes OPTION_BYTES_PROTECTED = Some image /\
      image =
        flat_map
          (fun word =>
             let low := Z.land word 0xFFFF in
             let high := Z.shiftr word 16 in
             int_to_bytes LittleEndian 2 low ++
             int_to_bytes LittleEndian 2 (Z.lxor low 0xFFFF) ++
             int_to_bytes LittleEndian 2 high ++
             int_to_bytes LittleEndian 2 (Z.lxor high 0xFFFF))
          OPTION_BYTES_PROTECTED /\
      List.length image = (8 * List.length OPTION_BYTES_PROTECTED)%nat).
Proof.
  do 1 (split; [solve_hyp|]).
  apply (encode_option_bytes_spec OPTION_BYTES_PROTECTED); solve_hyp.
Defined.

Example encode_option_bytes_empty : encode_option_bytes [] = Some [].
Proof. reflexivity. Qed.

(** A word that is not a 32-bit value makes [struct.pack] raise. *)
Example encode_option_bytes_wide_word : encode_option_bytes [2 ^ 32] = None.
Proof. reflexivity. Qed.

(** ** The option byte presets *)

Lemma testbit_one_shifted n j :
  0 <= n -> 0 <= j -> Z.testbit (Z.shiftl 1 n) j = (j =? n).
Proof.
  intros Hn Hj. rewrite Z.shiftl_1_l, Z.pow2_bits_eqb by lia.
  apply Z.eqb_sym.
Qed.

Lemma last_sector_floor flash_size sector_size :
  0 <= flash_size -> 0 < sector_size ->
  last_sector flash_size sector_size = flash_size / sector_size - 1.
Proof.
  intros. unfold last_sector. rewrite Z.quot_div_nonneg by lia. reflexivity.
Qed.

(** C6.  The PROTECTED preset differs from the UNPROTECTED one by exactly
    one additional set bit: for the index S >= 0 of the last sector, bit
    j of word i of the protected words is the bit of the unprotected
    words, except bit S of word 1 when S <= 31 and bit S - 32 of word 2
    when S >= 32, which is set and was clear; never both.  For the
    geometry of the program, S = 192 KiB / 4 KiB - 1 = 47 and the extra
    bit is bit 15 of word 2. *)
Theorem protected_one_more_bit (sector : Z) :
  0 <= sector ->
  (forall (i : nat) (j : Z),
      0 <= j ->
      Z.testbit (nth i (option_bytes_protected sector) 0) j =
      Z.testbit (nth i OPTION_BYTES_UNPROTECTED 0) j
      || (if sector <=? 31
          then (i =? 1)%nat && (j =? sector)
          else (i =? 2)%nat && (j =? sector - 32))) /\
  (sector <= 31 ->
   Z.testbit (nth 1 OPTION_BYTES_UNPROTECTED 0) sector = false) /\
  (32 <= sector ->
   Z.testbit (nth 2 OPTION_BYTES_UNPROTECTED 0) (sector - 32) = false) /\
  List.length (option_bytes_protected sector) =
    List.length OPTION_BYTES_UNPROTECTED /\
  PROTECTED_SECTOR = FLASH_SIZE / FLASH_PROTECT_SECTOR_SIZE - 1 /\
  PROTECTED_SECTOR = 47 /\
  OPTION_BYTES_PROTECTED =
    [nth 0 OPTION_BYTES_UNPROTECTED 0;
     nth 1 OPTION_BYTES_UNPROTECTED 0;
     Z.lor (nth 2 OPTION_BYTES_UNPROTECTED 0) (2 ^ 15)].
Proof.
  intros Hs. split; [|repeat split];
    try (intros; exact (Z.bits_0 _)); try reflexivity.
  intros i j Hj.
  destruct i as [|[|[|i]]]; unfold option_bytes_protected; cbn [nth].
    + destruct (sector <=? 31); cbn; rewrite orb_false_r; reflexivity.
    + rewrite Z.lor_spec. f_equal.
      destruct (Z.leb_spec sector 31).
      * apply testbit_one_shifted; lia.
      * apply Z.bits_0.
    + rewrite Z.lor_spec. f_equal.
      destruct (Z.leb_spec sector 31) as [Hle|Hgt].
      * assert (E : (sector >=? 32) = false) by (rewrite Z.geb_leb; apply Z.leb_gt; lia).
        rewrite E. apply Z.bits_0.
      * assert (E : (sector >=? 32) = true) by (rewrite Z.geb_leb; apply Z.leb_le; lia).
        rewrite E. apply testbit_one_shifted; lia.
    + destruct i; cbn; destruct (sector <=? 31);
        rewrite Z.bits_0; reflexivity.
Qed.

Lemma protected_one_more_bit_witness :
  0 <= 47 /\
  ((forall (i : nat) (j : Z),
        0 <= j ->
        Z.testbit (nth i (option_bytes_protected 47) 0) j =
        Z.testbit (nth i OPTION_BYTES_UNPROTECTED 0) j
        || (if 47 <=? 31
            then (i =? 1)%nat && (j =? 47)
            else (i =? 2)%nat && (j =? 47 - 32))) /\
    (47 <= 31 ->
     Z.testbit (nth 1 OPTION_BYTES_UNPROTECTED 0) 47 = false) /\
    (32 <= 47 ->
     Z.testbit (nth 2 OPTION_BYTES_UNPROTECTED 0) (47 - 32) = false) /\
    List.length (option_bytes_protected 47) =
      List.length OPTION_BYTES_UNPROTECTED /\
    PROTECTED_SECTOR = FLASH_SIZE / FLASH_PROTECT_SECTOR_SIZE - 1 /\
    PROTECTED_SECTOR = 47 /\
    OPTION_BYTES_PROTECTED =
      [nth 0 OPTION_BYTES_UNPROTECTED 0;
       nth 1 OPTION_BYTES_UNPROTECTED 0;
       Z.lor (nth 2 OPTION_BYTES_UNPROTECTED 0) (2 ^ 15)]).
Proof.
  do 1 (split; [solve_hyp|]).
  apply (protected_one_more_bit 47); solve_hyp.
Defined.

(** ** Running the monad by hand *)

Ltac unfold_run :=
  unfold program_flash, program_option_bytes, program_dfu, verify_dfu,
    register_device, check_dfu_version, subprocess_run, check_returncode,
    logging, emit, get_DFU_UTIL_0_9, set_DFU_UTIL_0_9, lift, bind, ret, raise.

Ltac tidy :=
  cbn [fst snd trace spawned DFU_UTIL_0_9 negb andb orb truthy returncode
       stdout uploaded] in *;
  rewrite <- ?app_assoc; cbn [app].

Ltac decide_eqb :=
  repeat match goal with
    | |- context [?x =? ?v] =>
        first [ rewrite (proj2 (Z.eqb_eq x v)) by lia
              | rewrite (proj2 (Z.eqb_neq x v)) by lia ]
    end.

(** ** [program_dfu] with dfu-util 0.9 *)

Lemma prefix_spec (a b : string) :
  String.prefix a b = true <-> exists rest, b = (a ++ rest)%string.
Proof.
  revert b. induction a as [|c a IH]; intros b.
  - simpl. split; [intros _; exists b; reflexivity|].
    intros _. destruct b; reflexivity.
  - destruct b as [|d b]; simpl.
    + split; [discriminate|]. intros [rest H]. discriminate.
    + destruct (ascii_dec c d) as [->|Hne].
      * rewrite IH. split; intros [rest H]; exists rest; congruence.
      * split; [discriminate|]. intros [rest H]. congruence.
Qed.

Lemma contains_spec (needle haystack : string) :
  contains needle haystack = true <->
  exists before after, haystack = (before ++ needle ++ after)%string.
Proof.
  induction haystack as [|c h IH]; cbn [contains].
  - rewrite orb_false_r, prefix_spec. split.
    + intros [rest H]. exists EmptyString, rest. exact H.
    + intros [before [after H]]. destruct before; [|discriminate].
      exists after. exact H.
  - rewrite orb_true_iff, prefix_spec, IH. split.
    + intros [[rest H]|[before [after H]]].
      * exists EmptyString, rest. exact H.
      * exists (String c before), after. simpl. congruence.
    + intros [before [after H]]. destruct before as [|d before].
      * left. exists after. exact H.
      * right. simpl in H. exists before, after. congruence.
Qed.

(** C4.  A write that expects a reset ([will_reset]), issued with
    dfu-util 0.9 ([DFU_UTIL_0_9] true): the command carries no
    will-reset marker and its output is captured; exit status 74 with
    the known text in the output is a success, with the two warnings
    (the second recommends dfu-util 0.10 or above); exit status 74
    without the text, and any other non-zero exit status, raise
    [CalledProcessError]; exit status 0 is a success. *)
Theorem legacy_reset_write env alt data address filename s :
  DFU_UTIL_0_9 s = Some true ->
  let res := child env (spawned s) in
  let name :=
    match filename with
    | Some (String c rest) => String c rest
    | _ => temp_file env (spawned s)
    end in
  let cmd := download_cmd alt (hex address) name in
  let started :=
    trace s ++
    [FileWritten name data; Log INFO "Running: %s" (Command cmd);
     Run cmd false res; StdoutWritten (stdout res)] in
  let out := program_dfu env alt data address filename false true s in
  (returncode res = 74 ->
   contains benign_output (stdout res) = true ->
   fst out = Ok tt /\
   trace (snd out) =
     started ++ [Log WARNING ignoring_1 NoArg; Log WARNING ignoring_2 NoArg]) /\
  (returncode res = 74 ->
   contains benign_output (stdout res) = false ->
   fst out = Raise (CalledProcessError 74 cmd) /\ trace (snd out) = started) /\
  (returncode res <> 0 -> returncode res <> 74 ->
   fst out = Raise (CalledProcessError (returncode res) cmd) /\
   trace (snd out) = started) /\
  (returncode res = 0 -> fst out = Ok tt /\ trace (snd out) = started).
Proof.
  intros Hlegacy res name cmd started out.
  subst out. unfold_run. tidy. rewrite Hlegacy. tidy.
  fold name. fold cmd. fold res. subst started.
  repeat split; intros; decide_eqb;
    repeat match goal with
      | H : contains _ _ = _ |- _ => rewrite H
      end;
    tidy;
    repeat match goal with
      | H : returncode res = _ |- _ => rewrite H; clear H
      end;
    reflexivity.
Qed.

Lemma legacy_reset_write_witness :
  DFU_UTIL_0_9 legacy_state = Some true /\
  (let res := child legacy_env (spawned legacy_state) in
    let name :=
      match None with
      | Some (String c rest) => String c rest
      | _ => temp_file legacy_env (spawned legacy_state)
      end in
    let cmd := download_cmd DFU_OPTION_ALT (hex OPTION_START_ADDRESS) name in
    let started :=
      trace legacy_state ++
      [FileWritten name (repeat Byte.x00 24); Log INFO "Running: %s" (Command cmd);
       Run cmd false res; StdoutWritten (stdout res)] in
    let out := program_dfu legacy_env DFU_OPTION_ALT (repeat Byte.x00 24) OPTION_START_ADDRESS None false true legacy_state in
    (returncode res = 74 ->
     contains benign_output (stdout res) = true ->
     fst out = Ok tt /\
     trace (snd out) =
       started ++ [Log WARNING ignoring_1 NoArg; Log WARNING ignoring_2 NoArg]) /\
    (returncode res = 74 ->
     contains benign_output (stdout res) = false ->
     fst out = Raise (CalledProcessError 74 cmd) /\ trace (snd out) = started) /\
    (returncode res <> 0 -> returncode res <> 74 ->
     fst out = Raise (CalledProcessError (returncode res) cmd) /\
     trace (snd out) = started) /\
    (returncode res = 0 -> fst out = Ok tt /\ trace (snd out) = started)).
Proof.
  do 1 (split; [solve_hyp|]).
  apply (legacy_reset_write legacy_env DFU_OPTION_ALT (repeat Byte.x00 24) OPTION_START_ADDRESS None legacy_state); solve_hyp.
Defined.

(** ** [program_flash] *)

Lemma FLASH_START_ADDRESS_aligned : FLASH_START_ADDRESS mod FLASH_ALIGN = 0.
Proof. reflexivity. Qed.

(** C5.  For every target offset, with the alignment quantum 128 = 2^7,
    the padding offset mod 128 lies in [0, 128); that many zero bytes
    are put in front of the payload and the padding is subtracted from
    the address written, so that the address of the write command is a
    multiple of 128 and address + padding = FLASH_START_ADDRESS +
    offset: the payload itself lands at the intended offset. *)
Theorem program_flash_alignment env args flash offset s :
  let padding := offset mod FLASH_ALIGN in
  let address := FLASH_START_ADDRESS + offset - padding in
  let data := repeat Byte.x00 (Z.to_nat padding) ++ flash in
  FLASH_ALIGN = 2 ^ 7 /\
  0 <= padding < FLASH_ALIGN /\
  address mod FLASH_ALIGN = 0 /\
  address + padding = FLASH_START_ADDRESS + offset /\
  Z.of_nat (List.length data) = padding + Z.of_nat (List.length flash) /\
  skipn (Z.to_nat padding) data = flash /\
  exists name rest,
    trace (snd (program_flash env args flash offset s)) =
    trace s ++
    FileWritten name data ::
    Log INFO (if skip_flash args then "Not running: %s" else "Running: %s")
      (Command (download_cmd DFU_FLASH_ALT (hex address) name)) ::
    rest /\
    (skip_flash args = false ->
     exists res rest',
       rest =
       Run (download_cmd DFU_FLASH_ALT (hex address) name) true res :: rest').
Proof.
  intros padding address data.
  assert (Hpad : 0 <= padding < FLASH_ALIGN).
  { apply Z.mod_pos_bound. reflexivity. }
  split; [reflexivity|]. split; [exact Hpad|].
  split.
  { unfold address.
    replace (FLASH_START_ADDRESS + offset - padding)
      with (FLASH_START_ADDRESS + (offset - padding)) by lia.
    unfold padding.
    rewrite <- Z.add_mod_idemp_r by (unfold FLASH_ALIGN; lia).
    rewrite Zminus_mod_idemp_r, Z.sub_diag. reflexivity. }
  split; [unfold address; lia|].
  split.
  { unfold data. rewrite length_app, repeat_length. lia. }
  split.
  { unfold data. rewrite skipn_app, repeat_length, Nat.sub_diag.
    rewrite skipn_all2 by (rewrite repeat_length; lia). reflexivity. }
  unfold_run. fold padding. fold address. fold data.
  destruct (skip_flash args); tidy.
  - eexists. eexists. split; [reflexivity|discriminate].
  - destruct (returncode (child env (spawned s)) =? 0); tidy.
    + destruct (returncode (child env (S (spawned s))) =? 0); tidy.
      * destruct (bytes_eqb _ _); tidy;
          eexists; eexists; (split; [reflexivity|]); intros _;
          eexists; eexists; reflexivity.
      * eexists; eexists; (split; [reflexivity|]); intros _;
          eexists; eexists; reflexivity.
    + eexists; eexists; (split; [reflexivity|]); intros _;
        eexists; eexists; reflexivity.
Qed.

Lemma program_flash_alignment_witness :
  let padding := (FLASH_SIZE - 48) mod FLASH_ALIGN in
    let address := FLASH_START_ADDRESS + (FLASH_SIZE - 48) - padding in
    let data := repeat Byte.x00 (Z.to_nat padding) ++ (repeat Byte.x2a 48) in
    FLASH_ALIGN = 2 ^ 7 /\
    0 <= padding < FLASH_ALIGN /\
    address mod FLASH_ALIGN = 0 /\
    address + padding = FLASH_START_ADDRESS + (FLASH_SIZE - 48) /\
    Z.of_nat (List.length data) = padding + Z.of_nat (List.length (repeat Byte.x2a 48)) /\
    skipn (Z.to_nat padding) data = (repeat Byte.x2a 48) /\
    exists name rest,
      trace (snd (program_flash quiet_env proto3_args (repeat Byte.x2a 48) (FLASH_SIZE - 48) initial_state)) =
      trace initial_state ++
      FileWritten name data ::
      Log INFO (if skip_flash proto3_args then "Not running: %s" else "Running: %s")
        (Command (download_cmd DFU_FLASH_ALT (hex address) name)) ::
      rest /\
      (skip_flash proto3_args = false ->
       exists res rest',
         rest =
         Run (download_cmd DFU_FLASH_ALT (hex address) name) true res :: rest').
Proof.
  apply (program_flash_alignment quiet_env proto3_args (repeat Byte.x2a 48) (FLASH_SIZE - 48) initial_state).
Defined.

Lemma bytes_eqb_spec (a b : bytes) : bytes_eqb a b = true <-> a = b.
Proof.
  revert b. induction a as [|x a IH]; intros [|y b]; simpl;
    try (split; [discriminate|congruence]); try tauto.
  rewrite andb_true_iff, IH. split.
  - intros [Hxy ->]. apply Byte.byte_dec_bl in Hxy. congruence.
  - intros H. injection H as -> ->. split; [|reflexivity].
    apply Byte.byte_dec_lb. reflexivity.
Qed.

(** C10.  After a storage write that succeeded, the verification reads
    back padding + len(flash) bytes from the aligned address and
    compares them with the whole padded payload: the run of
    [program_flash] succeeds exactly when the bytes read back are the
    zero padding followed by the block, and raises the verification
    error whenever the padding region reads back non-zero, whatever the
    bytes of the block. *)
Theorem verify_compares_padded_payload env args flash offset s :
  skip_flash args = false ->
  returncode (child env (spawned s)) = 0 ->
  returncode (child env (S (spawned s))) = 0 ->
  let padding := Z.to_nat (offset mod FLASH_ALIGN) in
  let address := FLASH_START_ADDRESS + offset - offset mod FLASH_ALIGN in
  let read_back := uploaded (child env (S (spawned s))) in
  let out := program_flash env args flash offset s in
  (exists name,
     In (Run (upload_cmd DFU_FLASH_ALT
                (hex address ++ ":" ++
                 hex (Z.of_nat (padding + List.length flash)))
                name)
           true (child env (S (spawned s))))
        (trace (snd out)) /\
     In (FileRead name read_back) (trace (snd out))) /\
  (fst out = Ok tt <-> read_back = repeat Byte.x00 padding ++ flash) /\
  (read_back <> repeat Byte.x00 padding ++ flash ->
   fst out = Raise (RuntimeError verification_failed)) /\
  (firstn padding read_back <> repeat Byte.x00 padding ->
   fst out = Raise (RuntimeError verification_failed)).
Proof.
  intros Hskip Hwrite Hread padding address read_back out.
  assert (Hcases :
    (exists name,
       In (Run (upload_cmd DFU_FLASH_ALT
                  (hex address ++ ":" ++
                   hex (Z.of_nat (padding + List.length flash)))
                  name)
             true (child env (S (spawned s))))
          (trace (snd out)) /\
       In (FileRead name read_back) (trace (snd out))) /\
    fst out =
      if bytes_eqb read_back (repeat Byte.x00 padding ++ flash)
      then Ok tt else Raise (RuntimeError verification_failed)).
  { subst out. unfold_run. rewrite Hskip. tidy.
    rewrite (proj2 (Z.eqb_eq _ _) Hwrite). tidy.
    rewrite (proj2 (Z.eqb_eq _ _) Hread). tidy.
    rewrite length_app, repeat_length.
    fold padding. fold address. fold read_back.
    destruct (bytes_eqb read_back (repeat Byte.x00 padding ++ flash)); tidy.
    all: split; [|reflexivity].
    all: eexists; split; apply in_or_app; right.
    all: cbn [In]; eauto 8. }
  destruct Hcases as [Hcmd Hout].
  split; [exact Hcmd|].
  destruct (bytes_eqb read_back (repeat Byte.x00 padding ++ flash)) eqn:E.
  - apply bytes_eqb_spec in E. rewrite Hout. repeat split; try congruence.
    intros Hpad. exfalso. apply Hpad. rewrite E.
    rewrite firstn_app, repeat_length, Nat.sub_diag.
    rewrite firstn_all2 by (rewrite repeat_length; lia).
    simpl. apply app_nil_r.
  - assert (Hne : read_back <> repeat Byte.x00 padding ++ flash).
    { intros H. apply bytes_eqb_spec in H. congruence. }
    rewrite Hout. repeat split; try congruence; try discriminate.
Qed.

Lemma verify_compares_padded_payload_witness :
  skip_flash proto3_args = false /\
  returncode (child quiet_env (spawned initial_state)) = 0 /\
  returncode (child quiet_env (S (spawned initial_state))) = 0 /\
  (let padding := Z.to_nat ((FLASH_SIZE - 48) mod FLASH_ALIGN) in
    let address := FLASH_START_ADDRESS + (FLASH_SIZE - 48) - (FLASH_SIZE - 48) mod FLASH_ALIGN in
    let read_back := uploaded (child quiet_env (S (spawned initial_state))) in
    let out := program_flash quiet_env proto3_args (repeat Byte.x2a 48) (FLASH_SIZE - 48) initial_state in
    (exists name,
       In (Run (upload_cmd DFU_FLASH_ALT
                  (hex address ++ ":" ++
                   hex (Z.of_nat (padding + List.length (repeat Byte.x2a 48))))
                  name)
             true (child quiet_env (S (spawned initial_state))))
          (trace (snd out)) /\
       In (FileRead name read_back) (trace (snd out))) /\
    (fst out = Ok tt <-> read_back = repeat Byte.x00 padding ++ (repeat Byte.x2a 48)) /\
    (read_back <> repeat Byte.x00 padding ++ (repeat Byte.x2a 48) ->
     fst out = Raise (RuntimeError verification_failed)) /\
    (firstn padding read_back <> repeat Byte.x00 padding ->
     fst out = Raise (RuntimeError verification_failed))).
Proof.
  do 3 (split; [solve_hyp|]).
  apply (verify_compares_padded_payload quiet_env proto3_args (repeat Byte.x2a 48) (FLASH_SIZE - 48) initial_state); solve_hyp.
Defined.

(** ** The whole run *)

Lemma encode_UNPROTECTED :
  encode_option_bytes OPTION_BYTES_UNPROTECTED =
  Some (flat_map option_word_bytes OPTION_BYTES_UNPROTECTED).
Proof. vm_compute. reflexivity. Qed.

Lemma encode_PROTECTED :
  encode_option_bytes OPTION_BYTES_PROTECTED =
  Some (flat_map option_word_bytes OPTION_BYTES_PROTECTED).
Proof. vm_compute. reflexivity. Qed.

Ltac unfold_main :=
  unfold script, main, try_except, main_body; unfold_run;
  unfold initial_state.

Ltac case_atom :=
  tidy;
  match goal with
  | |- context [skip_flash ?a] => destruct (skip_flash a) eqn:?
  | |- context [skip_register ?a] => destruct (skip_register a) eqn:?
  | |- context [returncode ?r =? ?v] =>
      destruct (Z.eqb_spec (returncode r) v)
  | |- context [contains ?a ?b] => destruct (contains a b) eqn:?
  | |- context [startswith ?a ?b] => destruct (startswith a b) eqn:?
  | |- context [bytes_eqb ?a ?b] => destruct (bytes_eqb a b) eqn:?
  end.

Ltac in_cases :=
  repeat match goal with
    | H : In _ (_ :: _) |- _ => destruct H as [H|H]
    | H : In _ [] |- _ => destruct H
    | H : False |- _ => destruct H
    | H : @eq event _ _ |- _ =>
        first [discriminate H | injection H as ?; subst]
    | H : @eq bool _ _ |- _ => discriminate H
    end.

(** C9.  In unprotect mode the only data staged and programmed is the
    UNPROTECTED option image (24 bytes, for 3 words): every child of the
    run is the version query or the download of that image to the option
    bytes (alternate setting 1, address 0x1FF80000); there is no download
    to the flash, no upload (verification) and no registration.  When
    flashing is not skipped and the version query succeeds, the download
    is run. *)
Theorem unprotect_run env args :
  unprotect args = true ->
  exists image,
    encode_option_bytes OPTION_BYTES_UNPROTECTED = Some image /\
    List.length OPTION_BYTES_UNPROTECTED = 3%nat /\
    List.length image = 24%nat /\
    let t := fst (script env args) in
    (forall name data, In (FileWritten name data) t -> data = image) /\
    (forall cmd check res,
        In (Run cmd check res) t ->
        cmd = version_cmd \/
        exists addr name,
          cmd = download_cmd DFU_OPTION_ALT addr name /\
          (addr = hex OPTION_START_ADDRESS \/
           addr = (hex OPTION_START_ADDRESS ++ ":will-reset")%string) /\
          In (FileWritten name image) t) /\
    (forall name data, ~ In (FileRead name data) t) /\
    (forall cmd check res,
        In (Run cmd check res) t ->
        (forall addr name, cmd <> download_cmd DFU_FLASH_ALT addr name) /\
        (forall alt addr name, cmd <> upload_cmd alt addr name) /\
        hd EmptyString cmd <> "ttn-lw-cli"%string) /\
    (skip_flash args = false ->
     returncode (child env 0%nat) = 0 ->
     exists addr name check,
       In (Run (download_cmd DFU_OPTION_ALT addr name) check
             (child env 1%nat)) t).
Proof.
  intros Hun.
  exists (flat_map option_word_bytes OPTION_BYTES_UNPROTECTED).
  split; [exact encode_UNPROTECTED|].
  split; [reflexivity|]. split; [reflexivity|].
  unfold_main. rewrite Hun, encode_UNPROTECTED. tidy.
  set (image := flat_map option_word_bytes OPTION_BYTES_UNPROTECTED).
  repeat case_atom; tidy.
  all: repeat split; unfold not; intros; in_cases; try reflexivity;
    try contradiction.
  all: try match goal with
         | H : @eq (list string) _ _ |- False => discriminate H
         | H : @eq string _ _ |- False => discriminate H
         end.
  all: try (left; reflexivity).
  all: try (right; do 2 eexists; split; [reflexivity|];
            split; [auto|cbn [In]; eauto 12]).
  all: try (do 3 eexists; cbn [In]; eauto 12).
Qed.

Lemma unprotect_run_witness :
  unprotect unprotect_args = true /\
  (exists image,
      encode_option_bytes OPTION_BYTES_UNPROTECTED = Some image /\
      List.length OPTION_BYTES_UNPROTECTED = 3%nat /\
      List.length image = 24%nat /\
      let t := fst (script quiet_env unprotect_args) in
      (forall name data, In (FileWritten name data) t -> data = image) /\
      (forall cmd check res,
          In (Run cmd check res) t ->
          cmd = version_cmd \/
          exists addr name,
            cmd = download_cmd DFU_OPTION_ALT addr name /\
            (addr = hex OPTION_START_ADDRESS \/
             addr = (hex OPTION_START_ADDRESS ++ ":will-reset")%string) /\
            In (FileWritten name image) t) /\
      (forall name data, ~ In (FileRead name data) t) /\
      (forall cmd check res,
          In (Run cmd check res) t ->
          (forall addr name, cmd <> download_cmd DFU_FLASH_ALT addr name) /\
          (forall alt addr name, cmd <> upload_cmd alt addr name) /\
          hd EmptyString cmd <> "ttn-lw-cli"%string) /\
      (skip_flash unprotect_args = false ->
       returncode (child quiet_env 0%nat) = 0 ->
       exists addr name check,
         In (Run (download_cmd DFU_OPTION_ALT addr name) check
               (child quiet_env 1%nat)) t)).
Proof.
  do 1 (split; [solve_hyp|]).
  apply (unprotect_run quiet_env unprotect_args); solve_hyp.
Defined.

Lemma aborts_from_spec t : forall written,
  aborts_from written t = true ->
  forall before e after,
    t = before ++ e :: after ->
    failed (fold_left note_written before written) e = true ->
    only_reports after = true.
Proof.
  induction t as [|x t IH]; intros written Habort before e after Heq Hfail.
  - destruct before; discriminate.
  - cbn [aborts_from] in Habort. apply andb_prop in Habort.
    destruct Habort as [Hhere Hrest].
    destruct before as [|y before]; cbn [app] in Heq;
      injection Heq as Hx Ht; subst.
    + cbn [fold_left] in Hfail. rewrite Hfail in Hhere. exact Hhere.
    + cbn [fold_left] in Hfail.
      eapply IH; [exact Hrest|reflexivity|exact Hfail].
Qed.

Ltac case_run :=
  tidy;
  match goal with
  | |- context [skip_flash ?a] => destruct (skip_flash a) eqn:?
  | |- context [unprotect ?a] => destruct (unprotect a) eqn:?
  | |- context [skip_register ?a] => destruct (skip_register a) eqn:?
  | |- context [lookup ?k ?t] => destruct (lookup k t) eqn:?
  | |- context [generate_flash ?a ?b ?c ?d ?e] =>
      destruct (generate_flash a b c d e) eqn:?
  | |- context [hex_eui ?a] => destruct (hex_eui a) eqn:?
  | |- context [returncode ?r =? ?v] => destruct (returncode r =? v) eqn:?
  | |- context [contains ?a ?b] => destruct (contains a b) eqn:?
  | |- context [startswith ?a ?b] => destruct (startswith a b) eqn:?
  | |- context [bytes_eqb ?a ?b] => destruct (bytes_eqb a b) eqn:?
  end.

Ltac check_trace :=
  lazy [aborts_from failed note_written child_failed only_reports forallb
        is_output is_error_report last negb andb orb];
  repeat match goal with
    | H : ?b = true |- context [?b] => rewrite H
    | H : ?b = false |- context [?b] => rewrite H
    end;
  lazy [negb andb orb];
  lazymatch goal with |- true = true => reflexivity end.

Lemma script_aborts env args :
  snd (script env args) = 0 /\
  aborts_from None (fst (script env args)) = true.
Proof.
  unfold_main. rewrite encode_UNPROTECTED, encode_PROTECTED.
  repeat case_run; tidy.
  all: split; [reflexivity|].
  all: check_trace.
Qed.

Lemma only_reports_spec (t : list event) (d : event) :
  only_reports t = true ->
  Forall (fun x => is_output x = true) t /\
  exists lvl_msg exn, last t d = Log ERROR lvl_msg (Exception exn).
Proof.
  unfold only_reports. intros H. apply andb_prop in H. destruct H as [Hout Hlast].
  split.
  - apply Forall_forall. intros x Hx.
    rewrite forallb_forall in Hout. apply Hout, Hx.
  - destruct t as [|x t]; [discriminate|].
    assert (E : forall d', last (x :: t) d' = last (x :: t) d).
    { clear. revert x. induction t as [|y t IH]; intros x d'; [reflexivity|].
      change (last (y :: t) d' = last (y :: t) d). apply IH. }
    rewrite E in Hlast.
    destruct (last (x :: t) d) as [lvl msg arg| | | |]; try discriminate.
    destruct lvl; try discriminate. destruct arg; try discriminate.
    eauto.
Qed.

(** C7 (amended).  Every error aborts the rest of the run at once, with
    no retry and no cleanup: a failed step (a failed child, a failed
    verification) is followed by nothing but output to the operator,
    which ends with the error logged at level ERROR; an encoding error
    occurs before anything is staged or programmed and is logged the
    same way.  The run then ends normally: the exit status of the
    process is 0. *)
Theorem errors_abort_run env args :
  snd (script env args) = 0 /\
  (forall before e after,
      fst (script env args) = before ++ e :: after ->
      failed (last_written before) e = true ->
      Forall (fun x => is_output x = true) after /\
      exists msg exn, last after e = Log ERROR msg (Exception exn)) /\
  (forall b,
      unprotect args = false ->
      lookup (board args) BOARDS = Some b ->
      generate_flash APP_EUI (id args) (token_bytes env KEY_SIZE)
        (info_board_id b) (info_board_version b) = None ->
      (forall name data, ~ In (FileWritten name data) (fst (script env args))) /\
      (forall cmd check res,
          In (Run cmd check res) (fst (script env args)) -> cmd = version_cmd) /\
      (skip_flash args = true \/ returncode (child env 0%nat) = 0 ->
       last (fst (script env args)) (StdoutWritten EmptyString) =
         Log ERROR "%s" (Exception struct_error))).
Proof.
  destruct (script_aborts env args) as [Hstatus Habort].
  split; [exact Hstatus|]. split.
  - intros before e after Heq Hfail.
    apply only_reports_spec.
    exact (aborts_from_spec _ _ Habort before e after Heq Hfail).
  - intros b Hun Hboard Hflash. clear Hstatus Habort.
    unfold_main. rewrite Hun, Hboard. tidy. rewrite Hflash.
    repeat case_atom; tidy.
    all: repeat split; unfold not; intros; in_cases; try reflexivity.
    all: match goal with H : _ \/ _ |- _ => destruct H end;
         congruence.
Qed.

Lemma errors_abort_run_witness :
  snd (script failing_env proto3_args) = 0 /\
    (forall before e after,
        fst (script failing_env proto3_args) = before ++ e :: after ->
        failed (last_written before) e = true ->
        Forall (fun x => is_output x = true) after /\
        exists msg exn, last after e = Log ERROR msg (Exception exn)) /\
    (forall b,
        unprotect proto3_args = false ->
        lookup (board proto3_args) BOARDS = Some b ->
        generate_flash APP_EUI (id proto3_args) (token_bytes failing_env KEY_SIZE)
          (info_board_id b) (info_board_version b) = None ->
        (forall name data, ~ In (FileWritten name data) (fst (script failing_env proto3_args))) /\
        (forall cmd check res,
            In (Run cmd check res) (fst (script failing_env proto3_args)) -> cmd = version_cmd) /\
        (skip_flash proto3_args = true \/ returncode (child failing_env 0%nat) = 0 ->
         last (fst (script failing_env proto3_args)) (StdoutWritten EmptyString) =
           Log ERROR "%s" (Exception struct_error))).
Proof.
  apply (errors_abort_run failing_env proto3_args).
Defined.

(** C7 as stated fails: when the download to the flash exits with status
    1 the error is logged and the exit status of the process is 0. *)
Lemma failed_write_exits_zero_counterexample :
  (exists cmd,
      last (fst (script failing_env proto3_args)) (StdoutWritten EmptyString) =
      Log ERROR "%s" (Exception (CalledProcessError 1 cmd))) /\
  ~ snd (script failing_env proto3_args) <> 0.
Proof.
  split.
  - eexists. vm_compute. reflexivity.
  - intros H. apply H. vm_compute. reflexivity.
Qed.

(** * Further properties *)

Ltac solve_In := vm_compute; repeat (first [left; reflexivity | right]).

(** ** [generate_flash]: errors and round trip *)

Lemma uint_test n z :
  ((0 <=? z) && (z <? 2 ^ (8 * Z.of_nat n))) = true <-> uint n z.
Proof.
  unfold uint. rewrite andb_true_iff, Z.leb_le, Z.ltb_lt. tauto.
Qed.

Lemma uint_dec n z : {uint n z} + {~ uint n z}.
Proof.
  destruct ((0 <=? z) && (z <? 2 ^ (8 * Z.of_nat n))) eqn:E.
  - left. apply uint_test, E.
  - right. intros H. apply uint_test in H. congruence.
Qed.

Lemma generate_flash_some aeui deui key bid bver flash :
  generate_flash aeui deui key bid bver = Some flash ->
  uint 1 bid /\ uint 1 bver /\ uint 8 aeui /\ uint 8 deui.
Proof.
  unfold generate_flash, pack. rewrite BLOCK_FORMAT_parsed.
  cbn [fields mkEepromContents crc board_id board_version app_eui dev_eui
       app_key pack_fields pack_field width].
  destruct ((0 <=? bid) && (bid <? 2 ^ (8 * Z.of_nat 1))) eqn:E1;
    [|cbn; discriminate].
  destruct ((0 <=? bver) && (bver <? 2 ^ (8 * Z.of_nat 1))) eqn:E2;
    [|cbn; discriminate].
  destruct ((0 <=? aeui) && (aeui <? 2 ^ (8 * Z.of_nat 8))) eqn:E3;
    [|cbn; discriminate].
  destruct ((0 <=? deui) && (deui <? 2 ^ (8 * Z.of_nat 8))) eqn:E4;
    [|cbn; discriminate].
  intros _. split; [|split; [|split]]; apply uint_test; assumption.
Qed.

(** X1.  [generate_flash] raises [struct.error] exactly when board_id or
    board_version is not a value of one byte, or app_eui or dev_eui is
    not a value of eight bytes (a station id that is negative or not
    below 2^64); the key never makes it raise. *)
Theorem generate_flash_struct_error app_eui dev_eui app_key board_id board_version :
  generate_flash app_eui dev_eui app_key board_id board_version = None <->
  ~ (uint 1 board_id /\ uint 1 board_version /\ uint 8 app_eui /\ uint 8 dev_eui).
Proof.
  split.
  - intros Hnone [Hb [Hv [Ha Hd]]].
    rewrite generate_flash_eq in Hnone by assumption. discriminate.
  - intros Hnot.
    destruct (generate_flash app_eui dev_eui app_key board_id board_version)
      as [flash|] eqn:E; [|reflexivity].
    exfalso. apply Hnot. eapply generate_flash_some, E.
Qed.

Lemma generate_flash_slices aeui deui key bid bver flash :
  List.length key = 16%nat ->
  generate_flash aeui deui key bid bver = Some flash ->
  slice 4 5 flash = int_to_bytes BigEndian 1 bid /\
  slice 5 6 flash = int_to_bytes BigEndian 1 bver /\
  slice 6 14 flash = int_to_bytes BigEndian 8 aeui /\
  slice 14 22 flash = int_to_bytes BigEndian 8 deui /\
  slice 22 38 flash = key.
Proof.
  intros Hkey Hflash.
  destruct (generate_flash_some _ _ _ _ _ _ Hflash) as [Hb [Hv [Ha Hd]]].
  rewrite generate_flash_eq in Hflash by assumption.
  injection Hflash as Hflash. subst flash.
  unfold after_crc. rewrite Hkey, firstn_all2 by lia.
  repeat split; try reflexivity.
  unfold slice.
  change (skipn 22 _) with
    ((key ++ repeat Byte.x00 (16 - 16)) ++
     int_to_bytes BigEndian 2 38 ++ int_to_bytes BigEndian 2 0x0201 ++
     int_to_bytes BigEndian 2 48 ++ int_to_bytes BigEndian 4 0xB6E03B02).
  cbn [Nat.sub repeat]. rewrite app_nil_r.
  rewrite firstn_app, Hkey, firstn_all2 by lia.
  cbn [Nat.sub firstn]. apply app_nil_r.
Qed.

(** X2.  Round trip: from a block encoded for a 16-byte key the inputs
    are read back at fixed offsets, big-endian: board_id at byte 4,
    board_version at byte 5, app_eui at bytes 6..13, dev_eui at bytes
    14..21 and the key at bytes 22..37. *)
Theorem generate_flash_read_back
    app_eui dev_eui app_key board_id board_version flash :
  List.length app_key = 16%nat ->
  generate_flash app_eui dev_eui app_key board_id board_version = Some flash ->
  int_from_bytes BigEndian (slice 4 5 flash) = board_id /\
  int_from_bytes BigEndian (slice 5 6 flash) = board_version /\
  int_from_bytes BigEndian (slice 6 14 flash) = app_eui /\
  int_from_bytes BigEndian (slice 14 22 flash) = dev_eui /\
  slice 22 38 flash = app_key.
Proof.
  intros Hkey Hflash.
  destruct (generate_flash_some _ _ _ _ _ _ Hflash) as [Hb [Hv [Ha Hd]]].
  destruct (generate_flash_slices _ _ _ _ _ _ Hkey Hflash)
    as [-> [-> [-> [-> ->]]]].
  rewrite !int_from_to_bytes by assumption. repeat split.
Qed.

Lemma generate_flash_read_back_witness :
  List.length (repeat Byte.x2a 16) = 16%nat /\
  generate_flash APP_EUI 42 (repeat Byte.x2a 16) 2 2 = Some proto3_flash /\
  (int_from_bytes BigEndian (slice 4 5 proto3_flash) = 2 /\
    int_from_bytes BigEndian (slice 5 6 proto3_flash) = 2 /\
    int_from_bytes BigEndian (slice 6 14 proto3_flash) = APP_EUI /\
    int_from_bytes BigEndian (slice 14 22 proto3_flash) = 42 /\
    slice 22 38 proto3_flash = (repeat Byte.x2a 16)).
Proof.
  split; [reflexivity|].
  split; [vm_compute; reflexivity|].
  apply (generate_flash_read_back APP_EUI 42 (repeat Byte.x2a 16) 2 2 proto3_flash);
    [reflexivity | vm_compute; reflexivity].
Defined.

Lemma int_to_bytes_inj o n a b :
  uint n a -> uint n b -> int_to_bytes o n a = int_to_bytes o n b -> a = b.
Proof.
  intros Ha Hb E.
  rewrite <- (int_from_to_bytes o n a Ha), <- (int_from_to_bytes o n b Hb).
  congruence.
Qed.

(** X3.  Two encodings of 16-byte keys that give the same block were
    given the same app_eui, dev_eui, key, board_id and board_version. *)
Theorem generate_flash_injective
    app_eui dev_eui app_key board_id board_version
    app_eui' dev_eui' app_key' board_id' board_version' flash :
  List.length app_key = 16%nat ->
  List.length app_key' = 16%nat ->
  generate_flash app_eui dev_eui app_key board_id board_version = Some flash ->
  generate_flash app_eui' dev_eui' app_key' board_id' board_version' =
    Some flash ->
  app_eui = app_eui' /\ dev_eui = dev_eui' /\ app_key = app_key' /\
  board_id = board_id' /\ board_version = board_version'.
Proof.
  intros Hkey Hkey' Hflash Hflash'.
  destruct (generate_flash_some _ _ _ _ _ _ Hflash) as [Hb [Hv [Ha Hd]]].
  destruct (generate_flash_some _ _ _ _ _ _ Hflash') as [Hb' [Hv' [Ha' Hd']]].
  destruct (generate_flash_slices _ _ _ _ _ _ Hkey Hflash)
    as [Eb [Ev [Ea [Ed Ek]]]].
  destruct (generate_flash_slices _ _ _ _ _ _ Hkey' Hflash')
    as [Eb' [Ev' [Ea' [Ed' Ek']]]].
  rewrite Eb in Eb'. rewrite Ev in Ev'. rewrite Ea in Ea'. rewrite Ed in Ed'.
  rewrite Ek in Ek'.
  repeat split; try (eapply int_to_bytes_inj; eassumption). exact Ek'.
Qed.

Lemma generate_flash_injective_witness :
  List.length (repeat Byte.x2a 16) = 16%nat /\
  List.length (repeat Byte.x2a 16) = 16%nat /\
  generate_flash APP_EUI 42 (repeat Byte.x2a 16) 2 2 = Some proto3_flash /\
  generate_flash APP_EUI 42 (repeat Byte.x2a 16) 2 2 =
      Some proto3_flash /\
  (APP_EUI = APP_EUI /\ 42 = 42 /\ (repeat Byte.x2a 16) = (repeat Byte.x2a 16) /\
    2 = 2 /\ 2 = 2).
Proof.
  split; [reflexivity|].
  split; [reflexivity|].
  split; [vm_compute; reflexivity|].
  split; [vm_compute; reflexivity|].
  apply (generate_flash_injective APP_EUI 42 (repeat Byte.x2a 16) 2 2 APP_EUI 42 (repeat Byte.x2a 16) 2 2 proto3_flash);
    [reflexivity | reflexivity | vm_compute; reflexivity | vm_compute; reflexivity].
Defined.

(** X4.  Every block the encoder returns is 48 bytes long and passes the
    check of its reader: the CRC-32C of the bytes after the first four is
    the big-endian integer held in the first four. *)
Theorem generate_flash_self_check
    app_eui dev_eui app_key board_id board_version flash :
  generate_flash app_eui dev_eui app_key board_id board_version = Some flash ->
  List.length flash = 48%nat /\
  Crc32c.crc32c (skipn CRC_SIZE flash) =
  int_from_bytes BigEndian (firstn CRC_SIZE flash).
Proof.
  intros Hflash.
  destruct (generate_flash_some _ _ _ _ _ _ Hflash) as [Hb [Hv [Ha Hd]]].
  rewrite generate_flash_eq in Hflash by assumption.
  assert (E : flash =
    int_to_bytes BigEndian 4
      (Crc32c.crc32c (after_crc board_id board_version app_eui dev_eui app_key)) ++
    after_crc board_id board_version app_eui dev_eui app_key) by congruence.
  clear Hflash. subst flash.
  split.
  - rewrite length_app, int_to_bytes_length, after_crc_length. reflexivity.
  - unfold CRC_SIZE.
    rewrite skipn_int_to_bytes_app, firstn_int_to_bytes_app.
    symmetry. apply int_from_to_bytes, crc32c_range.
Qed.

Lemma generate_flash_self_check_witness :
  generate_flash APP_EUI 42 (repeat Byte.x2a 16) 2 2 = Some proto3_flash /\
  (List.length proto3_flash = 48%nat /\
    Crc32c.crc32c (skipn CRC_SIZE proto3_flash) =
    int_from_bytes BigEndian (firstn CRC_SIZE proto3_flash)).
Proof.
  split; [vm_compute; reflexivity|].
  apply (generate_flash_self_check APP_EUI 42 (repeat Byte.x2a 16) 2 2 proto3_flash);
    [vm_compute; reflexivity].
Defined.

(** ** [encode_option_bytes]: errors, concatenation and round trip *)

Lemma land_0xffff_range word : uint 2 (Z.land word 0xffff).
Proof.
  unfold uint. change 0xffff with (Z.ones 16). rewrite Z.land_ones by lia.
  change (2 ^ (8 * Z.of_nat 2)) with (2 ^ 16). apply Z.mod_pos_bound. lia.
Qed.

Lemma shiftr_16_range word : uint 2 (Z.shiftr word 16) <-> uint 4 word.
Proof.
  unfold uint. rewrite Z.shiftr_div_pow2 by lia.
  change (2 ^ (8 * Z.of_nat 2)) with 65536.
  change (2 ^ (8 * Z.of_nat 4)) with (65536 * 65536).
  change (2 ^ 16) with 65536.
  split; intros [H1 H2].
  - split.
    + destruct (Z_lt_le_dec word 0) as [Hneg|]; [|assumption].
      assert (word / 65536 < 0) by (apply Z.div_lt_upper_bound; lia). lia.
    + destruct (Z_lt_le_dec word (65536 * 65536)) as [|Hbig]; [assumption|].
      assert (65536 <= word / 65536) by (apply Z.div_le_lower_bound; lia). lia.
  - split.
    + apply Z.div_pos; lia.
    + apply Z.div_lt_upper_bound; lia.
Qed.

Lemma pack_HH_none hw :
  ~ uint 2 hw -> pack "<HH" [VInt hw; VInt (Z.lxor hw 0xffff)] = None.
Proof.
  intros Hhw. unfold pack.
  change (parse "<HH") with (Some (LittleEndian, [cH; cH])).
  cbn [pack_fields pack_field width].
  destruct ((0 <=? hw) && (hw <? 2 ^ (8 * Z.of_nat 2))) eqn:E; [|reflexivity].
  exfalso. apply Hhw, uint_test, E.
Qed.

Lemma encode_word_none res word :
  ~ uint 4 word ->
  for_each [Z.land word 0xffff; Z.shiftr word 16]
    (fun res hw =>
       match pack "<HH" [VInt hw; VInt (Z.lxor hw 0xffff)] with
       | Some p => Some (res ++ p)
       | None => None
       end) res = None.
Proof.
  intros Hword.
  rewrite for_each_cons, pack_HH by apply land_0xffff_range.
  rewrite for_each_cons, pack_HH_none; [reflexivity|].
  intros H. apply Hword, shiftr_16_range, H.
Qed.

Lemma encode_words_none words : forall res,
  Exists (fun w => ~ uint 4 w) words ->
  for_each words
    (fun res word =>
       for_each [Z.land word 0xffff; Z.shiftr word 16]
         (fun res hw =>
            match pack "<HH" [VInt hw; VInt (Z.lxor hw 0xffff)] with
            | Some p => Some (res ++ p)
            | None => None
            end) res) res = None.
Proof.
  induction words as [|w words IH]; intros res Hex.
  - inversion Hex.
  - rewrite for_each_cons.
    destruct (uint_dec 4 w) as [Hw|Hw].
    + rewrite encode_word by exact Hw. apply IH.
      inversion Hex; subst; [contradiction|assumption].
    + rewrite encode_word_none by exact Hw. reflexivity.
Qed.

Lemma words_cases (words : list Z) :
  Forall (uint 4) words \/ Exists (fun w => ~ uint 4 w) words.
Proof.
  destruct (Forall_Exists_dec (uint 4) (uint_dec 4) words); auto.
Qed.

(** X5.  [encode_option_bytes] raises [struct.error] exactly when some
    word is negative or not below 2^32. *)
Theorem encode_option_bytes_struct_error (words : list Z) :
  encode_option_bytes words = None <-> Exists (fun w => ~ uint 4 w) words.
Proof.
  split.
  - intros Hnone. destruct (words_cases words) as [Hall|Hex]; [|exact Hex].
    unfold encode_option_bytes in Hnone.
    rewrite encode_words in Hnone by exact Hall. discriminate.
  - intros Hex. apply encode_words_none, Hex.
Qed.

Lemma encode_option_bytes_none words :
  Exists (fun w => ~ uint 4 w) words -> encode_option_bytes words = None.
Proof. intros Hex. apply encode_words_none, Hex. Qed.

Lemma encode_option_bytes_eq words :
  Forall (uint 4) words ->
  encode_option_bytes words = Some (flat_map option_word_bytes words).
Proof. intros H. unfold encode_option_bytes. rewrite encode_words by exact H. reflexivity. Qed.

Lemma encode_option_bytes_some words image :
  encode_option_bytes words = Some image ->
  Forall (uint 4) words /\ image = flat_map option_word_bytes words.
Proof.
  intros H. destruct (words_cases words) as [Hall|Hex].
  - split; [exact Hall|]. rewrite encode_option_bytes_eq in H by exact Hall.
    congruence.
  - unfold encode_option_bytes in H. rewrite encode_words_none in H by exact Hex.
    discriminate.
Qed.

(** X6.  The option image of a concatenation is the concatenation of the
    option images; it raises when either part does. *)
Theorem encode_option_bytes_app (words more : list Z) :
  encode_option_bytes (words ++ more) =
  match encode_option_bytes words, encode_option_bytes more with
  | Some image, Some image' => Some (image ++ image')
  | _, _ => None
  end.
Proof.
  destruct (words_cases words) as [Hw|Hw]; destruct (words_cases more) as [Hm|Hm].
  - rewrite !encode_option_bytes_eq;
      [|assumption|assumption|apply Forall_app; split; assumption].
    rewrite flat_map_app. reflexivity.
  - rewrite (encode_option_bytes_none more Hm).
    rewrite (encode_option_bytes_none (words ++ more))
      by (apply Exists_app; right; exact Hm).
    destruct (encode_option_bytes words); reflexivity.
  - rewrite (encode_option_bytes_none words Hw).
    rewrite (encode_option_bytes_none (words ++ more))
      by (apply Exists_app; left; exact Hw).
    reflexivity.
  - rewrite (encode_option_bytes_none words Hw).
    rewrite (encode_option_bytes_none (words ++ more))
      by (apply Exists_app; left; exact Hw).
    reflexivity.
Qed.

Lemma skipn_option_image (i : nat) : forall words,
  skipn (8 * i) (flat_map option_word_bytes words) =
  flat_map option_word_bytes (skipn i words).
Proof.
  induction i as [|i IH]; intros words; [reflexivity|].
  destruct words as [|w words].
  - rewrite skipn_nil. reflexivity.
  - replace (8 * S i)%nat with (8 * i + 8)%nat by lia.
    rewrite <- skipn_skipn.
    change (skipn 8 (flat_map option_word_bytes (w :: words)))
      with (flat_map option_word_bytes words).
    apply IH.
Qed.

Lemma skipn_nth (i : nat) : forall (words : list Z),
  (i < List.length words)%nat ->
  skipn i words = nth i words 0 :: skipn (S i) words.
Proof.
  induction i as [|i IH]; intros [|w words] Hi; cbn [List.length] in Hi;
    try lia; [reflexivity|].
  cbn [skipn nth]. apply IH. lia.
Qed.

Lemma option_image_units words (i : nat) :
  (i < List.length words)%nat ->
  let image := flat_map option_word_bytes words in
  let low := Z.land (nth i words 0) 0xFFFF in
  let high := Z.shiftr (nth i words 0) 16 in
  slice (8 * i + 0) (8 * i + 2) image = int_to_bytes LittleEndian 2 low /\
  slice (8 * i + 2) (8 * i + 4) image =
    int_to_bytes LittleEndian 2 (Z.lxor low 0xFFFF) /\
  slice (8 * i + 4) (8 * i + 6) image = int_to_bytes LittleEndian 2 high /\
  slice (8 * i + 6) (8 * i + 8) image =
    int_to_bytes LittleEndian 2 (Z.lxor high 0xFFFF).
Proof.
  intros Hi image low high. unfold slice.
  replace (8 * i + 2 - (8 * i + 0))%nat with 2%nat by lia.
  replace (8 * i + 4 - (8 * i + 2))%nat with 2%nat by lia.
  replace (8 * i + 6 - (8 * i + 4))%nat with 2%nat by lia.
  replace (8 * i + 8 - (8 * i + 6))%nat with 2%nat by lia.
  rewrite !(Nat.add_comm (8 * i)), <- !skipn_skipn.
  unfold image. rewrite skipn_option_image, skipn_nth by exact Hi.
  cbn [flat_map]. fold low. fold high.
  repeat split; reflexivity.
Qed.

(** X7.  Round trip: in an option image the four little-endian 16-bit
    units of word i start at byte 8 * i; units 0 and 2 are the low and
    the high half of the word, and each is followed by its complement
    (their exclusive-or is 0xFFFF). *)
Theorem encode_option_bytes_read_back (words : list Z) (image : bytes) (i : nat) :
  encode_option_bytes words = Some image ->
  (i < List.length words)%nat ->
  let unit (k : nat) :=
    int_from_bytes LittleEndian
      (slice (8 * i + 2 * k) (8 * i + 2 * k + 2) image) in
  nth i words 0 = unit 0%nat + 2 ^ 16 * unit 2%nat /\
  Z.lxor (unit 0%nat) (unit 1%nat) = 0xFFFF /\
  Z.lxor (unit 2%nat) (unit 3%nat) = 0xFFFF.
Proof.
  intros Himage Hi unit.
  destruct (encode_option_bytes_some _ _ Himage) as [Hall ->].
  assert (Hw : uint 4 (nth i words 0)).
  { rewrite Forall_forall in Hall. apply Hall, nth_In, Hi. }
  destruct (halves_range _ Hw) as [Hlow Hhigh].
  destruct (option_image_units words i Hi) as [E0 [E1 [E2 E3]]].
  assert (Hones : uint 2 0xFFFF) by solve_uint.
  assert (Hlow' : uint 2 (Z.lxor (Z.land (nth i words 0) 0xFFFF) 0xFFFF)).
  { apply lxor_range; [reflexivity|exact Hlow|exact Hones]. }
  assert (Hhigh' : uint 2 (Z.lxor (Z.shiftr (nth i words 0) 16) 0xFFFF)).
  { apply lxor_range; [reflexivity|exact Hhigh|exact Hones]. }
  assert (U0 : unit 0%nat = Z.land (nth i words 0) 0xFFFF).
  { unfold unit. change (8 * i + 2 * 0 + 2)%nat with (8 * i + 0 + 2)%nat.
    replace (8 * i + 0 + 2)%nat with (8 * i + 2)%nat by lia.
    change (2 * 0)%nat with 0%nat. rewrite E0. apply int_from_to_bytes, Hlow. }
  assert (U1 : unit 1%nat = Z.lxor (Z.land (nth i words 0) 0xFFFF) 0xFFFF).
  { unfold unit. change (2 * 1)%nat with 2%nat.
    replace (8 * i + 2 + 2)%nat with (8 * i + 4)%nat by lia.
    rewrite E1. apply int_from_to_bytes, Hlow'. }
  assert (U2 : unit 2%nat = Z.shiftr (nth i words 0) 16).
  { unfold unit. change (2 * 2)%nat with 4%nat.
    replace (8 * i + 4 + 2)%nat with (8 * i + 6)%nat by lia.
    rewrite E2. apply int_from_to_bytes, Hhigh. }
  assert (U3 : unit 3%nat = Z.lxor (Z.shiftr (nth i words 0) 16) 0xFFFF).
  { unfold unit. change (2 * 3)%nat with 6%nat.
    replace (8 * i + 6 + 2)%nat with (8 * i + 8)%nat by lia.
    rewrite E3. apply int_from_to_bytes, Hhigh'. }
  rewrite U0, U1, U2, U3. clear unit E0 E1 E2 E3 U0 U1 U2 U3.
  split; [|split].
  - change 0xFFFF with (Z.ones 16). rewrite Z.land_ones by lia.
    rewrite Z.shiftr_div_pow2 by lia.
    rewrite Z.add_comm. apply Z.div_mod. lia.
  - rewrite <- Z.lxor_assoc, Z.lxor_nilpotent. apply Z.lxor_0_l.
  - rewrite <- Z.lxor_assoc, Z.lxor_nilpotent. apply Z.lxor_0_l.
Qed.

Lemma encode_option_bytes_read_back_witness :
  encode_option_bytes OPTION_BYTES_PROTECTED = Some (flat_map option_word_bytes OPTION_BYTES_PROTECTED) /\
  (2%nat < List.length OPTION_BYTES_PROTECTED)%nat /\
  (let unit (k : nat) :=
      int_from_bytes LittleEndian
        (slice (8 * 2%nat + 2 * k) (8 * 2%nat + 2 * k + 2) (flat_map option_word_bytes OPTION_BYTES_PROTECTED)) in
    nth 2%nat OPTION_BYTES_PROTECTED 0 = unit 0%nat + 2 ^ 16 * unit 2%nat /\
    Z.lxor (unit 0%nat) (unit 1%nat) = 0xFFFF /\
    Z.lxor (unit 2%nat) (unit 3%nat) = 0xFFFF).
Proof.
  split; [vm_compute; reflexivity|].
  split; [cbn; lia|].
  apply (encode_option_bytes_read_back OPTION_BYTES_PROTECTED (flat_map option_word_bytes OPTION_BYTES_PROTECTED) 2%nat);
    [vm_compute; reflexivity | cbn; lia].
Defined.

(** ** [program_dfu], [verify_dfu] and the place of the block *)


(** X9.  Outside the dfu-util 0.9 reset path, [program_dfu] runs the
    download with [check=True] and does not capture its output: the
    will-reset marker is on the address exactly when a reset is
    expected, exit status 0 returns, and every other exit status, 74
    included, raises [CalledProcessError]. *)
Theorem program_dfu_checked env alt data address filename will_reset s :
  will_reset && truthy (DFU_UTIL_0_9 s) = false ->
  let res := child env (spawned s) in
  let out := program_dfu env alt data address filename false will_reset s in
  let name := staging_file env filename s in
  let cmd :=
    download_cmd alt
      (if will_reset then (hex address ++ ":will-reset")%string
       else hex address) name in
  trace (snd out) =
    trace s ++
    [FileWritten name data; Log INFO "Running: %s" (Command cmd);
     Run cmd true res] /\
  spawned (snd out) = S (spawned s) /\
  (returncode res = 0 -> fst out = Ok tt) /\
  (returncode res <> 0 ->
   fst out = Raise (CalledProcessError (returncode res) cmd)).
Proof.
  intros Hpath res out name cmd. subst out. unfold_run. tidy.
  rewrite Hpath.
  assert (Harg :
    (if will_reset && negb (truthy (DFU_UTIL_0_9 s))
     then (hex address ++ ":will-reset")%string else hex address) =
    (if will_reset then (hex address ++ ":will-reset")%string
     else hex address)).
  { destruct will_reset; [|reflexivity]. cbn [andb] in Hpath.
    rewrite Hpath. reflexivity. }
  rewrite Harg. subst cmd name res. unfold staging_file. tidy.
  destruct (Z.eqb_spec (returncode (child env (spawned s))) 0) as [E|E]; tidy;
    repeat split; intros; try contradiction; try reflexivity.
Qed.

Lemma program_dfu_checked_witness :
  true && truthy (DFU_UTIL_0_9 initial_state) = false /\
  (let res := child quiet_env (spawned initial_state) in
    let out := program_dfu quiet_env DFU_OPTION_ALT (repeat Byte.x00 24) OPTION_START_ADDRESS None false true initial_state in
    let name := staging_file quiet_env None initial_state in
    let cmd :=
      download_cmd DFU_OPTION_ALT
        (if true then (hex OPTION_START_ADDRESS ++ ":will-reset")%string
         else hex OPTION_START_ADDRESS) name in
    trace (snd out) =
      trace initial_state ++
      [FileWritten name (repeat Byte.x00 24); Log INFO "Running: %s" (Command cmd);
       Run cmd true res] /\
    spawned (snd out) = S (spawned initial_state) /\
    (returncode res = 0 -> fst out = Ok tt) /\
    (returncode res <> 0 ->
     fst out = Raise (CalledProcessError (returncode res) cmd))).
Proof.
  split; [reflexivity|].
  apply (program_dfu_checked quiet_env DFU_OPTION_ALT (repeat Byte.x00 24) OPTION_START_ADDRESS None true initial_state);
    [reflexivity].
Defined.


Lemma program_flash_starts env args flash offset s :
  let padding := offset mod FLASH_ALIGN in
  let address := FLASH_START_ADDRESS + offset - padding in
  let data := repeat Byte.x00 (Z.to_nat padding) ++ flash in
  let name := staging_file env (flash_filename args) s in
  exists rest,
    trace (snd (program_flash env args flash offset s)) =
    trace s ++
    FileWritten name data ::
    Log INFO (if skip_flash args then "Not running: %s" else "Running: %s")
      (Command (download_cmd DFU_FLASH_ALT (hex address) name)) ::
    rest.
Proof.
  intros padding address data name. subst name. unfold staging_file.
  unfold_run. fold padding. fold address. fold data.
  destruct (skip_flash args); tidy; [eexists; reflexivity|].
  destruct (returncode (child env (spawned s)) =? 0); tidy;
    [|eexists; reflexivity].
  destruct (returncode (child env (S (spawned s))) =? 0); tidy;
    [|eexists; reflexivity].
  destruct (bytes_eqb _ _); tidy; eexists; reflexivity.
Qed.

(** X11.  A block of at most 4096 bytes put at the end of the flash, as
    [main] does with offset [FLASH_SIZE - len(flash)], is written with
    its padding so that the data ends at the last byte of the flash and
    every byte of it lies in the sector [PROTECTED_SECTOR], the one the
    protected option bytes write-protect. *)
Theorem flash_block_in_protected_sector env args flash s :
  Z.of_nat (List.length flash) <= FLASH_PROTECT_SECTOR_SIZE ->
  let flash_offset := FLASH_SIZE - Z.of_nat (List.length flash) in
  exists address name data rest,
    trace (snd (program_flash env args flash flash_offset s)) =
      trace s ++
      FileWritten name data ::
      Log INFO (if skip_flash args then "Not running: %s" else "Running: %s")
        (Command (download_cmd DFU_FLASH_ALT (hex address) name)) ::
      rest /\
    address + Z.of_nat (List.length data) = FLASH_START_ADDRESS + FLASH_SIZE /\
    forall k,
      0 <= k < Z.of_nat (List.length data) ->
      (address + k - FLASH_START_ADDRESS) / FLASH_PROTECT_SECTOR_SIZE =
      PROTECTED_SECTOR.
Proof.
  intros Hfits flash_offset.
  destruct (program_flash_starts env args flash flash_offset s) as [rest Htrace].
  set (padding := flash_offset mod FLASH_ALIGN) in *.
  set (address := FLASH_START_ADDRESS + flash_offset - padding) in *.
  set (data := repeat Byte.x00 (Z.to_nat padding) ++ flash) in *.
  exists address, (staging_file env (flash_filename args) s), data, rest.
  split; [exact Htrace|].
  assert (Hpad : 0 <= padding < FLASH_ALIGN).
  { apply Z.mod_pos_bound. reflexivity. }
  assert (Hlen : Z.of_nat (List.length data) =
                 padding + Z.of_nat (List.length flash)).
  { unfold data. rewrite length_app, repeat_length. lia. }
  assert (Hfloor : flash_offset - padding = FLASH_ALIGN * (flash_offset / FLASH_ALIGN)).
  { unfold padding. rewrite Z.mod_eq by (unfold FLASH_ALIGN; lia). lia. }
  assert (Hlow : 1504 <= flash_offset / FLASH_ALIGN).
  { apply Z.div_le_lower_bound; [reflexivity|].
    unfold flash_offset, FLASH_SIZE, FLASH_ALIGN.
    unfold FLASH_PROTECT_SECTOR_SIZE in Hfits. lia. }
  split; [unfold address, flash_offset; lia|].
  intros k Hk.
  change PROTECTED_SECTOR with 47.
  unfold FLASH_PROTECT_SECTOR_SIZE, FLASH_ALIGN, FLASH_SIZE in *.
  apply Z.le_antisymm.
  - apply Z.lt_succ_r. apply Z.div_lt_upper_bound; [lia|].
    unfold address, flash_offset in *. lia.
  - apply Z.div_le_lower_bound; [lia|]. unfold address. lia.
Qed.

Lemma flash_block_in_protected_sector_witness :
  Z.of_nat (List.length proto3_flash) <= FLASH_PROTECT_SECTOR_SIZE /\
  (let flash_offset := FLASH_SIZE - Z.of_nat (List.length proto3_flash) in
    exists address name data rest,
      trace (snd (program_flash quiet_env proto3_args proto3_flash flash_offset initial_state)) =
        trace initial_state ++
        FileWritten name data ::
        Log INFO (if skip_flash proto3_args then "Not running: %s" else "Running: %s")
          (Command (download_cmd DFU_FLASH_ALT (hex address) name)) ::
        rest /\
      address + Z.of_nat (List.length data) = FLASH_START_ADDRESS + FLASH_SIZE /\
      forall k,
        0 <= k < Z.of_nat (List.length data) ->
        (address + k - FLASH_START_ADDRESS) / FLASH_PROTECT_SECTOR_SIZE =
        PROTECTED_SECTOR).
Proof.
  split; [vm_compute; discriminate|].
  apply (flash_block_in_protected_sector quiet_env proto3_args proto3_flash initial_state);
    [vm_compute; discriminate].
Defined.

(** ** The order of the steps of a run *)

Lemma hex_eui_some eui :
  uint 8 eui -> hex_eui eui = Some (bytes_hex (int_to_bytes BigEndian 8 eui)).
Proof.
  intros H. unfold hex_eui, pack.
  change (parse ">Q") with (Some (BigEndian, [cQ])).
  cbn [pack_fields]. rewrite pack_field_int by (try discriminate; exact H).
  cbn [option_map width]. rewrite app_nil_r. reflexivity.
Qed.

Lemma hex_eui_APP_EUI :
  hex_eui APP_EUI = Some (bytes_hex (int_to_bytes BigEndian 8 APP_EUI)).
Proof. apply hex_eui_some. solve_uint. Qed.

Ltac run_steps :=
  cbv [steps step_of nth download_cmd upload_cmd create_cmd version_cmd
       DFU_FLASH_ALT DFU_OPTION_ALT String.eqb Ascii.eqb Bool.eqb negb
       map app].

(** X12.  The child processes of every run are started in the order of
    the plan (version query, flash write, flash read-back, option bytes
    write, registration, less the steps the command line skips), each at
    most once: the steps of the trace are a prefix of the plan. *)
Theorem steps_follow_plan env args :
  exists later,
    map Some (plan args) = steps (fst (script env args)) ++ later.
Proof.
  unfold plan. unfold_main. rewrite encode_UNPROTECTED, encode_PROTECTED.
  repeat case_run; tidy.
  all: run_steps.
  all: eexists; reflexivity.
Qed.

Ltac eval_failures :=
  lazy [no_failure existsb is_error aborts_from failed note_written
        child_failed only_reports forallb is_output is_error_report last
        negb andb orb];
  repeat match goal with
    | H : ?b = true |- context [?b] => rewrite H
    | H : ?b = false |- context [?b] => rewrite H
    end;
  lazy [negb andb orb].

(** X13.  When the encoding succeeds and no step fails, the run takes
    every step of its plan, logs nothing at level ERROR, exits with
    status 0 and, unless flashing is skipped, ends with the note that the
    device was restarted. *)
Theorem unfailing_run_completes env args :
  (unprotect args = false ->
   exists b flash,
     lookup (board args) BOARDS = Some b /\
     generate_flash APP_EUI (id args) (token_bytes env KEY_SIZE)
       (info_board_id b) (info_board_version b) = Some flash) ->
  no_failure None (fst (script env args)) = true ->
  steps (fst (script env args)) = map Some (plan args) /\
  existsb is_error (fst (script env args)) = false /\
  snd (script env args) = 0 /\
  (skip_flash args = false ->
   last (fst (script env args)) (StdoutWritten EmptyString) =
   Log INFO "Note: Device was restarted." NoArg).
Proof.
  intros Hencodes. revert Hencodes.
  destruct (unprotect args) eqn:Hun; intros Hencodes.
  - clear Hencodes. unfold plan. unfold_main.
    rewrite Hun, encode_UNPROTECTED. tidy.
    repeat case_run; tidy.
    all: eval_failures; intros Hok; try discriminate Hok.
    all: run_steps; repeat split; try reflexivity; intros; discriminate.
  - destruct (Hencodes eq_refl) as [b [flash [Hboard Hflash]]]. clear Hencodes.
    destruct (generate_flash_some _ _ _ _ _ _ Hflash) as [_ [_ [_ Hid]]].
    unfold plan. unfold_main.
    rewrite Hun, Hboard, encode_PROTECTED. tidy. rewrite Hflash. tidy.
    rewrite (hex_eui_some _ Hid), hex_eui_APP_EUI.
    repeat case_run; tidy.
    all: eval_failures; intros Hok; try discriminate Hok.
    all: run_steps; repeat split; try reflexivity; intros; discriminate.
Qed.

Lemma unfailing_run_completes_witness :
  (unprotect proto3_args = false ->
     exists b flash,
       lookup (board proto3_args) BOARDS = Some b /\
       generate_flash APP_EUI (id proto3_args) (token_bytes good_env KEY_SIZE)
         (info_board_id b) (info_board_version b) = Some flash) /\
  no_failure None (fst (script good_env proto3_args)) = true /\
  (steps (fst (script good_env proto3_args)) = map Some (plan proto3_args) /\
    existsb is_error (fst (script good_env proto3_args)) = false /\
    snd (script good_env proto3_args) = 0 /\
    (skip_flash proto3_args = false ->
     last (fst (script good_env proto3_args)) (StdoutWritten EmptyString) =
     Log INFO "Note: Device was restarted." NoArg)).
Proof.
  split; [intros _; exists {| info_board_id := 2; info_board_version := 2 |}, proto3_flash; split; vm_compute; reflexivity|].
  split; [vm_compute; reflexivity|].
  apply (unfailing_run_completes good_env proto3_args);
    [intros _; exists {| info_board_id := 2; info_board_version := 2 |}, proto3_flash; split; vm_compute; reflexivity | vm_compute; reflexivity].
Defined.

(** ** What is registered is what is flashed *)

Lemma token_bytes_length env n :
  List.length (token_bytes env n) = Z.to_nat n.
Proof. unfold token_bytes. rewrite length_map, length_seq. reflexivity. Qed.

Lemma generate_flash_length aeui deui key bid bver flash :
  generate_flash aeui deui key bid bver = Some flash ->
  List.length flash = 48%nat.
Proof.
  intros Hflash.
  destruct (generate_flash_some _ _ _ _ _ _ Hflash) as [Hb [Hv [Ha Hd]]].
  rewrite generate_flash_eq in Hflash by assumption.
  assert (E : flash =
    int_to_bytes BigEndian 4 (Crc32c.crc32c (after_crc bid bver aeui deui key)) ++
    after_crc bid bver aeui deui key) by congruence.
  subst flash.
  rewrite length_app, int_to_bytes_length, after_crc_length. reflexivity.
Qed.

Ltac in_events :=
  repeat match goal with
    | H : In _ (_ :: _) |- _ => destruct H as [H|H]
    | H : In _ [] |- _ => destruct H
    | H : False |- _ => destruct H
    | H : @eq event (Run _ _ _) (Run _ _ _) |- _ => injection H as ? ? ?; subst
    | H : @eq event _ _ |- _ => discriminate H
    end.

Ltac not_that_step :=
  match goal with
  | H : step_of _ = Some _ |- _ =>
      cbv [step_of nth download_cmd upload_cmd create_cmd version_cmd
           DFU_FLASH_ALT DFU_OPTION_ALT String.eqb Ascii.eqb Bool.eqb negb]
        in H;
      discriminate H
  end.

(** X14.  Whenever the registration command is run, the block was
    encoded and written (behind 80 bytes of padding), and the command
    registers what the block holds: device id meetstation-<id>, the
    dev_eui of bytes 14..21, the key of bytes 22..37 and the join EUI of
    bytes 6..13, in hexadecimal; its exit status is checked. *)
Theorem registered_credentials_are_flashed env args cmd check res :
  In (Run cmd check res) (fst (script env args)) ->
  step_of cmd = Some Register ->
  exists b flash name,
    lookup (board args) BOARDS = Some b /\
    generate_flash APP_EUI (id args) (token_bytes env KEY_SIZE)
      (info_board_id b) (info_board_version b) = Some flash /\
    In (FileWritten name (repeat Byte.x00 80 ++ flash))
       (fst (script env args)) /\
    cmd =
      create_cmd APP_ID (DEVICE_ID_TEMPLATE_format (id args))
        (bytes_hex (slice 14 22 flash))
        (bytes_hex (slice 22 38 flash))
        (bytes_hex (slice 6 14 flash))
        LORAWAN_VERSION LORAWAN_PHY_VERSION FREQUENCY_PLAN /\
    check = true.
Proof.
  destruct (unprotect args) eqn:Hun.
  { unfold_main. rewrite Hun, encode_UNPROTECTED. tidy.
    repeat case_run; tidy; intros HIn Hstep; in_events; not_that_step. }
  destruct (lookup (board args) BOARDS) as [b|] eqn:Hboard.
  2:{ unfold_main. rewrite Hun, Hboard. tidy.
      repeat case_run; tidy; intros HIn Hstep; in_events; not_that_step. }
  destruct (generate_flash APP_EUI (id args) (token_bytes env KEY_SIZE)
              (info_board_id b) (info_board_version b)) as [flash|] eqn:Hflash.
  2:{ unfold_main. rewrite Hun, Hboard. tidy. rewrite Hflash.
      repeat case_run; tidy; intros HIn Hstep; in_events; not_that_step. }
  intros HIn Hstep. exists b, flash.
  enough (exists name,
    In (FileWritten name (repeat Byte.x00 80 ++ flash))
       (fst (script env args)) /\
    cmd =
      create_cmd APP_ID (DEVICE_ID_TEMPLATE_format (id args))
        (bytes_hex (slice 14 22 flash))
        (bytes_hex (slice 22 38 flash))
        (bytes_hex (slice 6 14 flash))
        LORAWAN_VERSION LORAWAN_PHY_VERSION FREQUENCY_PLAN /\
    check = true) as [name H] by (exists name; auto).
  assert (Hkey : List.length (token_bytes env KEY_SIZE) = 16%nat)
    by apply token_bytes_length.
  destruct (generate_flash_some _ _ _ _ _ _ Hflash) as [_ [_ [_ Hid]]].
  destruct (generate_flash_slices _ _ _ _ _ _ Hkey Hflash)
    as [_ [_ [-> [-> ->]]]].
  pose proof (generate_flash_length _ _ _ _ _ _ Hflash) as Hlen.
  revert HIn Hstep.
  unfold_main.
  rewrite Hun, Hboard, encode_PROTECTED. tidy. rewrite Hflash. tidy.
  rewrite (hex_eui_some _ Hid), hex_eui_APP_EUI. rewrite Hlen.
  change (Z.to_nat ((FLASH_SIZE - Z.of_nat 48) mod FLASH_ALIGN)) with 80%nat.
  rewrite length_app, repeat_length, Hlen.
  repeat case_run; tidy; intros HIn Hstep; in_events; try not_that_step.
  all: eexists; split; [cbn [In]; eauto 8|split; reflexivity].
Qed.

Lemma registered_credentials_are_flashed_witness :
  In (Run (create_cmd APP_ID (DEVICE_ID_TEMPLATE_format 42)
         (bytes_hex (slice 14 22 proto3_flash))
         (bytes_hex (slice 22 38 proto3_flash))
         (bytes_hex (slice 6 14 proto3_flash))
         LORAWAN_VERSION LORAWAN_PHY_VERSION FREQUENCY_PLAN) true (child good_env 4)) (fst (script good_env proto3_args)) /\
  step_of (create_cmd APP_ID (DEVICE_ID_TEMPLATE_format 42)
         (bytes_hex (slice 14 22 proto3_flash))
         (bytes_hex (slice 22 38 proto3_flash))
         (bytes_hex (slice 6 14 proto3_flash))
         LORAWAN_VERSION LORAWAN_PHY_VERSION FREQUENCY_PLAN) = Some Register /\
  (exists b flash name,
      lookup (board proto3_args) BOARDS = Some b /\
      generate_flash APP_EUI (id proto3_args) (token_bytes good_env KEY_SIZE)
        (info_board_id b) (info_board_version b) = Some flash /\
      In (FileWritten name (repeat Byte.x00 80 ++ flash))
         (fst (script good_env proto3_args)) /\
      (create_cmd APP_ID (DEVICE_ID_TEMPLATE_format 42)
         (bytes_hex (slice 14 22 proto3_flash))
         (bytes_hex (slice 22 38 proto3_flash))
         (bytes_hex (slice 6 14 proto3_flash))
         LORAWAN_VERSION LORAWAN_PHY_VERSION FREQUENCY_PLAN) =
        create_cmd APP_ID (DEVICE_ID_TEMPLATE_format (id proto3_args))
          (bytes_hex (slice 14 22 flash))
          (bytes_hex (slice 22 38 flash))
          (bytes_hex (slice 6 14 flash))
          LORAWAN_VERSION LORAWAN_PHY_VERSION FREQUENCY_PLAN /\
      true = true).
Proof.
  split; [solve_In|].
  split; [vm_compute; reflexivity|].
  apply (registered_credentials_are_flashed good_env proto3_args (create_cmd APP_ID (DEVICE_ID_TEMPLATE_format 42)
       (bytes_hex (slice 14 22 proto3_flash))
       (bytes_hex (slice 22 38 proto3_flash))
       (bytes_hex (slice 6 14 proto3_flash))
       LORAWAN_VERSION LORAWAN_PHY_VERSION FREQUENCY_PLAN) true (child good_env 4));
    [solve_In | vm_compute; reflexivity].
Defined.

(** ** Skipped steps, and the dfu-util version *)

Ltac absurd_flag :=
  match goal with
  | H : false = true |- _ => discriminate H
  | H : true = false |- _ => discriminate H
  end.

(** Addresses that depend on data the proof keeps symbolic are kept
    folded. *)
Ltac abstract_hex :=
  repeat match goal with
    | |- context [hex ?x] =>
        lazymatch x with
        | OPTION_START_ADDRESS => fail
        | _ => let a := fresh "addr" in generalize (hex x); intros a
        end
    end.

(** X15.  With --skip-flash no dfu-util process is started and nothing
    is read back; with --skip-register no registration is started; with
    both, the run starts no child process at all. *)
Theorem skipped_steps_are_not_run env args :
  let t := fst (script env args) in
  (skip_flash args = true ->
   (forall cmd check res,
       In (Run cmd check res) t -> step_of cmd = Some Register) /\
   (forall name data, ~ In (FileRead name data) t)) /\
  (skip_register args = true ->
   forall cmd check res,
     In (Run cmd check res) t -> step_of cmd <> Some Register) /\
  (skip_flash args = true -> skip_register args = true ->
   forall cmd check res, ~ In (Run cmd check res) t).
Proof.
  unfold_main. rewrite encode_UNPROTECTED, encode_PROTECTED.
  repeat case_run; tidy.
  all: abstract_hex.
  all: repeat split; unfold not; intros; try absurd_flag; in_events.
  all: try reflexivity.
  all: not_that_step.
Qed.

(** X16.  The option bytes are written only when flashing is not skipped
    and the version query succeeded, and the output of that query decides
    how: when it starts with [dfu-util 0.9] the address has no
    will-reset marker and the exit status is not checked by
    [subprocess.run]; otherwise the marker is there and it is. *)
Theorem version_decides_reset_handling env args cmd check res :
  In (Run cmd check res) (fst (script env args)) ->
  step_of cmd = Some WriteOption ->
  let legacy := startswith (stdout (child env 0%nat)) "dfu-util 0.9" in
  skip_flash args = false /\
  returncode (child env 0%nat) = 0 /\
  check = negb legacy /\
  exists name,
    cmd =
    download_cmd DFU_OPTION_ALT
      (if legacy then hex OPTION_START_ADDRESS
       else (hex OPTION_START_ADDRESS ++ ":will-reset")%string)
      name.
Proof.
  unfold_main. rewrite encode_UNPROTECTED, encode_PROTECTED.
  repeat case_run; tidy.
  all: abstract_hex.
  all: intros HIn Hstep; in_events; try not_that_step.
  all: repeat split; try reflexivity; try (apply Z.eqb_eq; assumption).
  all: eexists; reflexivity.
Qed.

Lemma version_decides_reset_handling_witness :
  In (Run (download_cmd DFU_OPTION_ALT
         (hex OPTION_START_ADDRESS ++ ":will-reset")%string
         (temp_file good_env 3)) true (child good_env 3)) (fst (script good_env proto3_args)) /\
  step_of (download_cmd DFU_OPTION_ALT
         (hex OPTION_START_ADDRESS ++ ":will-reset")%string
         (temp_file good_env 3)) = Some WriteOption /\
  (let legacy := startswith (stdout (child good_env 0%nat)) "dfu-util 0.9" in
    skip_flash proto3_args = false /\
    returncode (child good_env 0%nat) = 0 /\
    true = negb legacy /\
    exists name,
      (download_cmd DFU_OPTION_ALT
         (hex OPTION_START_ADDRESS ++ ":will-reset")%string
         (temp_file good_env 3)) =
      download_cmd DFU_OPTION_ALT
        (if legacy then hex OPTION_START_ADDRESS
         else (hex OPTION_START_ADDRESS ++ ":will-reset")%string)
        name).
Proof.
  split; [solve_In|].
  split; [vm_compute; reflexivity|].
  apply (version_decides_reset_handling good_env proto3_args (download_cmd DFU_OPTION_ALT
       (hex OPTION_START_ADDRESS ++ ":will-reset")%string
       (temp_file good_env 3)) true (child good_env 3));
    [solve_In | vm_compute; reflexivity].
Defined.



(** ** Identifiers given to TTN *)

Lemma to_int_printable z :
  Z.to_int z <> Decimal.Pos Decimal.Nil /\ Z.to_int z <> Decimal.Neg Decimal.Nil.
Proof.
  destruct z as [|p|p]; cbn [Z.to_int]; split; try discriminate;
    intros H; injection H as H;
    exact (DecimalPos.Unsigned.to_uint_nonnil p H).
Qed.

Lemma str_int_inj a b : str_int a = str_int b -> a = b.
Proof.
  unfold str_int. intros H.
  apply (f_equal DecimalString.NilZero.int_of_string) in H.
  destruct (to_int_printable a) as [Ha Ha'].
  destruct (to_int_printable b) as [Hb Hb'].
  rewrite !DecimalString.NilZero.isi in H by assumption.
  injection H as H. apply DecimalZ.to_int_inj, H.
Qed.

Lemma append_inv_head (p a b : string) :
  (p ++ a)%string = (p ++ b)%string -> a = b.
Proof.
  induction p as [|c p IH]; cbn [String.append]; intros H; [exact H|].
  injection H as H. apply IH, H.
Qed.

(** X18.  Different station ids get different TTN device ids. *)
Theorem device_id_injective (n m : Z) :
  DEVICE_ID_TEMPLATE_format n = DEVICE_ID_TEMPLATE_format m -> n = m.
Proof.
  unfold DEVICE_ID_TEMPLATE_format. intros H.
  apply str_int_inj. eapply append_inv_head, H.
Qed.

Lemma device_id_injective_witness :
  DEVICE_ID_TEMPLATE_format 42 = DEVICE_ID_TEMPLATE_format 42 /\
  (42 = 42).
Proof.
  split; [reflexivity|].
  apply (device_id_injective 42 42);
    [reflexivity].
Defined.

Lemma length_append (a b : string) :
  String.length (a ++ b) = (String.length a + String.length b)%nat.
Proof. induction a as [|c a IH]; cbn; [reflexivity|]. rewrite IH. reflexivity. Qed.

Lemma list_ascii_append (a b : string) :
  list_ascii_of_string (a ++ b) =
  (list_ascii_of_string a ++ list_ascii_of_string b)%list.
Proof. induction a as [|c a IH]; cbn; [reflexivity|]. rewrite IH. reflexivity. Qed.

Lemma concat_empty_cons (x : string) (xs : list string) :
  String.concat EmptyString (x :: xs) =
  (x ++ String.concat EmptyString xs)%string.
Proof.
  destruct xs as [|y xs]; cbn [String.concat String.append]; [|reflexivity].
  induction x as [|c x IH]; cbn [String.append]; [reflexivity|].
  rewrite <- IH. reflexivity.
Qed.

Lemma byte_hex_digits (x : byte) :
  let pair :=
    (hex_digit (byte.unsigned x / 16) ++ hex_digit (byte.unsigned x mod 16))%string in
  String.length pair = 2%nat /\
  forallb is_hex_digit (list_ascii_of_string pair) = true.
Proof. destruct x; split; vm_compute; reflexivity. Qed.

Lemma bytes_hex_digits (b : bytes) :
  String.length (bytes_hex b) = (2 * List.length b)%nat /\
  forallb is_hex_digit (list_ascii_of_string (bytes_hex b)) = true.
Proof.
  unfold bytes_hex. induction b as [|x b [IHlen IHdigits]]; [split; reflexivity|].
  cbn [map]. rewrite concat_empty_cons.
  destruct (byte_hex_digits x) as [Hlen Hdigits]. cbv zeta in Hlen, Hdigits.
  split.
  - rewrite length_append, Hlen, IHlen. cbn [List.length]. lia.
  - rewrite list_ascii_append, forallb_app, Hdigits, IHdigits. reflexivity.
Qed.

(** X19.  [hex_eui] raises [struct.error] exactly when the EUI is not a
    value of eight bytes; what it returns is 16 digits of lower-case
    hexadecimal. *)
Theorem hex_eui_spec (eui : Z) :
  (hex_eui eui = None <-> ~ uint 8 eui) /\
  forall s,
    hex_eui eui = Some s ->
    String.length s = 16%nat /\
    forallb is_hex_digit (list_ascii_of_string s) = true.
Proof.
  destruct (uint_dec 8 eui) as [H|H].
  - rewrite hex_eui_some by exact H. split.
    + split; [discriminate|contradiction].
    + intros s Hs. injection Hs as <-.
      destruct (bytes_hex_digits (int_to_bytes BigEndian 8 eui)) as [Hlen Hd].
      rewrite int_to_bytes_length in Hlen. split; assumption.
  - assert (Hnone : hex_eui eui = None).
    { unfold hex_eui, pack.
      change (parse ">Q") with (Some (BigEndian, [cQ])).
      cbn [pack_fields pack_field width].
      destruct ((0 <=? eui) && (eui <? 2 ^ (8 * Z.of_nat 8))) eqn:E;
        [|reflexivity].
      exfalso. apply H, uint_test, E. }
    rewrite Hnone. split; [tauto|discriminate].
Qed.
